(** * A personal finance ledger (ledger.py): model and properties

    The Python program keeps a list of transaction dictionaries in memory,
    rewrites a JSON file after every mutation and prints its reports on a
    console.  The model follows it method by method:

    - amounts are Python floats, that is IEEE 754 binary64 numbers; they are
      [spec_float] values with precision 53 and [emax] 1024, and [+], [-],
      [<=] are the operations of the standard library's [SpecFloat];
      [round(x, 2)] is modelled after CPython (the exact value is rounded to
      two decimals, ties to even, and converted back to the nearest float);
    - a transaction is the [TypedDict] of the source, a record of six
      fields; its [type] is any string and ids may repeat, as an import can
      bring them in.  The methods are modelled on ledgers of such records
      ([PersonalFinanceLedger]), where the properties of the specification
      are stated, and again on the JSON values [json.load] can bring into
      memory, whatever their keys ([Untyped]): there an import can stop
      half-way.  On ledgers of records the two agree ([exec_of_state]);
    - [json.dump] and [json.load] are a codec between JSON values and file
      contents; a file holds a JSON value, a text the decoder rejects, or
      bytes that are no text; a file that exists can be opened for reading;
    - the files and the console are an explicit [World] passed through every
      method; a path may be unwritable ([IOError]); the clock is an argument
      of [add_transaction];
    - the console is the list of the calls of [console.print]: what rich
      renders of a text is not modelled, and texts it refuses with
      [MarkupError] (it reads them as markup, and a closing tag may match
      nothing) are outside the model;
    - the answers a handler obtains from its prompts are arguments of the
      handler; [str.lower] is a parameter of [handle_view]. *)

From Stdlib Require Import ZArith Bool List Lia SpecFloat.
From stdpp Require Import base option list sorting gmap strings.

Open Scope Z_scope.

(** ** Python floats *)

Module Float.

(** A Python float is a [spec_float] that is [valid_binary 53 1024]; what
    is proved below for every [spec_float] holds for these. *)
Definition float := spec_float.

Definition prec : Z := 53.
Definition emax : Z := 1024.

(** [0.0] *)
Definition zero : float := S754_zero false.

(** [x + y], [x - y] and [x <= y], [x < y], [x == y] on floats. *)
Definition add (x y : float) : float := SFadd prec emax x y.
Definition sub (x y : float) : float := SFsub prec emax x y.
Definition leb (x y : float) : bool := SFleb x y.
Definition ltb (x y : float) : bool := SFltb x y.
Definition eqb (x y : float) : bool := SFeqb x y.

(** The float nearest to the fraction [num / den], ties to even, with the
    sign [s]: what [float("0.3")] or a float literal gives for [3 / 10]. *)
Definition of_ratio (s : bool) (num den : positive) : float :=
  let '(q, e, l) := SFdiv_core_binary prec emax (Zpos num) 0 (Zpos den) 0 in
  binary_round_aux prec emax s q e l.

(** The float for a non-negative decimal with two fractional digits, given
    in hundredths: [cents 4550] is [45.50]. *)
Definition cents (k : Z) : float :=
  match k with
  | Zpos p => of_ratio false p 100
  | _ => zero
  end.

(** The integer nearest to [100 * m * 2^e], ties to even. *)
Definition nearest_hundredths (m : positive) (e : Z) : Z :=
  match e with
  | Zneg p =>
      let n := 100 * Zpos m in
      let d := 2 ^ Zpos p in
      let q := n / d in
      match 2 * (n mod d) ?= d with
      | Lt => q
      | Gt => q + 1
      | Eq => if Z.even q then q else q + 1
      end
  | _ => 100 * Zpos m * 2 ^ e
  end.

(** Python's [round(x, 2)] on a float ([float.__round__] of CPython): NaN
    and the infinities round to themselves; a finite [x] is first rounded,
    as the exact number it is, to the nearest decimal with two fractional
    digits (ties to even), and that decimal is converted back to the
    nearest float; the sign is kept, so [round(-0.001, 2)] is [-0.0]. *)
Definition round2 (x : float) : float :=
  match x with
  | S754_finite s m e =>
      match nearest_hundredths m e with
      | Zpos k => of_ratio s k 100
      | _ => S754_zero s
      end
  | _ => x
  end.

End Float.

Abbreviation float := Float.float.

(** ** JSON values and the Transaction dictionary *)

(** What [json.load] returns and [json.dump] accepts. *)
#[local] Unset Elimination Schemes.
Inductive json : Type :=
  | JNull
  | JBool (b : bool)
  | JInt (z : Z)
  | JFloat (f : float)
  | JStr (s : string)
  | JArr (items : list json)
  | JObj (fields : list (string * json)).
#[local] Set Elimination Schemes.

(** [class Transaction(TypedDict)] *)
Record Transaction : Type := {
  id : Z;
  date : string;
  type : string;
  category : string;
  amount : float;
  description : string
}.

(** A transaction as the dictionary [add_transaction] builds, keys in the
    order of the source. *)
Definition transaction_to_json (t : Transaction) : json :=
  JObj [ ("id"%string, JInt (id t));
         ("date"%string, JStr (date t));
         ("type"%string, JStr (type t));
         ("category"%string, JStr (category t));
         ("amount"%string, JFloat (amount t));
         ("description"%string, JStr (description t)) ].

Definition transaction_keys : list string :=
  [ "id"; "date"; "type"; "category"; "amount"; "description" ]%string.

(** Reading a dictionary back as a [Transaction]: the six keys as
    [add_transaction] writes them.  A ledger of records cannot hold any
    other dictionary (other keys, other value types); the loading
    operations of [PersonalFinanceLedger] return [None] on them, and those
    of [Untyped] say what the program does. *)
Definition transaction_of_json (j : json) : option Transaction :=
  match j with
  | JObj [ (k1, JInt i); (k2, JStr d); (k3, JStr ty);
           (k4, JStr c); (k5, JFloat a); (k6, JStr ds) ] =>
      if decide ([k1; k2; k3; k4; k5; k6] = transaction_keys)
      then Some {| id := i; date := d; type := ty;
                   category := c; amount := a; description := ds |}
      else None
  | _ => None
  end.

Definition transactions_to_json (l : list Transaction) : json :=
  JArr (map transaction_to_json l).

Definition transactions_of_json (j : json) : option (list Transaction) :=
  match j with
  | JArr items => mapM transaction_of_json items
  | _ => None
  end.

(** [isinstance(d, dict)] *)
Definition is_dict (j : json) : bool :=
  match j with JObj _ => true | _ => false end.

(** [isinstance(imported_data, list) and all(isinstance(d, dict) for d in imported_data)] *)
Definition is_list_of_dicts (j : json) : bool :=
  match j with JArr items => forallb is_dict items | _ => false end.

(** ** Files and console *)

(** The content of a file as [json.load(f)] sees it: a text that decodes to
    a JSON value (what [json.dump] wrote for it); a text on which the decoder
    raises [JSONDecodeError] with the message [err]; or bytes that are no
    text in the encoding of [open], on which the read raises
    [UnicodeDecodeError], a [ValueError] that is not a [JSONDecodeError]. *)
Inductive content : Type :=
  | Document (v : json)
  | Corrupt (err : string)
  | BadEncoding (err : string).

(** The title of a table of transactions. *)
Inductive title : Type :=
  | FullHistory
  | TypeTransactions (choice : string)
  | CategoryTransactions (cat : string).

(** What the program hands to [console.print], one constructor per call of
    the methods and handlers modelled here; [UnexpectedError] is the call
    of the command loop when an exception leaves a handler. *)
Inductive message : Type :=
  | DataLoaded (file : string)
  | FreshLedger
  | LoadCorrupt
  | SaveFailed
  | TransactionAdded (tx_type : string) (new_id : Z)
  | TransactionDeleted (tx_id : Z)
  | TransactionNotFound (tx_id : Z)
  | Exported (filename : string)
  | ExportFailed
  | Imported (filename : string)
  | ImportFileNotFound (filename : string)
  | ImportInvalid (e : string)
  | AmountRejected
  | NoTransactions (t : title)
  | TransactionTable (t : title) (rows : list Transaction)
  | InvalidFilter
  | UnexpectedError.

Record World : Type := {
  files : gmap string content;
  unwritable : gset string;
  console : list message
}.

(** [console.print(...)] *)
Definition say (m : message) (w : World) : World :=
  {| files := files w; unwritable := unwritable w;
     console := console w ++ [m] |}.

(** [with open(path, "w") as f: json.dump(v, f, indent=4)]; [None] is the
    [IOError] of a path that cannot be written. *)
Definition write_file (path : string) (v : json) (w : World) : option World :=
  if decide (path ∈ unwritable w) then None
  else Some {| files := <[path := Document v]> (files w);
               unwritable := unwritable w;
               console := console w |}.

(** ** The ledger *)

(** [max(xs, default=d)] *)
Definition py_max (d : Z) (xs : list Z) : Z :=
  match xs with
  | [] => d
  | x :: rest => fold_left Z.max rest x
  end.

Module PersonalFinanceLedger.

Record t : Type := {
  data_file : string;
  transactions : list Transaction;
  _next_id : Z
}.

Record Summary : Type := { income : float; expense : float }.

Definition with_transactions (self : t) (l : list Transaction) : t :=
  {| data_file := data_file self; transactions := l;
     _next_id := _next_id self |}.

Definition with_next_id (self : t) (n : Z) : t :=
  {| data_file := data_file self; transactions := transactions self;
     _next_id := n |}.

(** [_load_transactions]: [None] when an exception leaves the call (only
    [FileNotFoundError] and [JSONDecodeError] are caught), or when the file
    holds a JSON value that is not a list of transactions, which a ledger of
    records cannot hold. *)
Definition _load_transactions (self : t) (w : World) : option (t * World) :=
  match files w !! data_file self with
  | Some (Document v) =>
      l ← transactions_of_json v;
      Some (with_transactions self l, say (DataLoaded (data_file self)) w)
  | None => Some (with_transactions self [], say FreshLedger w)
  | Some (Corrupt _) => Some (with_transactions self [], say LoadCorrupt w)
  | Some (BadEncoding _) => None
  end.

(** [__init__] *)
Definition __init__ (data_file : string) (w : World) : option (t * World) :=
  let self := {| data_file := data_file; transactions := [];
                 _next_id := 0 |} in
  '(self, w) ← _load_transactions self w;
  Some (with_next_id self (py_max 0 (map id (transactions self)) + 1), w).

Definition _save_transactions (self : t) (w : World) : World :=
  match write_file (data_file self)
                   (transactions_to_json (transactions self)) w with
  | Some w' => w'
  | None => say SaveFailed w
  end.

(** [add_transaction]; [now] is [datetime.now().strftime(...)]. *)
Definition add_transaction (now : string) (tx_type category : string)
    (amount : float) (description : string) (self : t) (w : World)
    : t * World :=
  let new_transaction :=
    {| id := _next_id self; date := now; type := tx_type;
       category := category; amount := Float.round2 amount;
       description := description |} in
  let self := with_transactions self
                (transactions self ++ [new_transaction]) in
  let self := with_next_id self (_next_id self + 1) in
  let w := _save_transactions self w in
  (self, say (TransactionAdded tx_type (id new_transaction)) w).

Definition delete_transaction (tx_id : Z) (self : t) (w : World)
    : bool * t * World :=
  let initial_count := length (transactions self) in
  let self := with_transactions self
                (filter (λ t, id t ≠ tx_id) (transactions self)) in
  if (length (transactions self) <? initial_count)%nat then
    let w := _save_transactions self w in
    (true, self, say (TransactionDeleted tx_id) w)
  else
    (false, self, say (TransactionNotFound tx_id) w).

(** The loop of [calculate_balance], from the running [balance]. *)
Fixpoint balance_loop (balance : float) (l : list Transaction) : float :=
  match l with
  | [] => balance
  | tx :: rest =>
      if String.eqb (type tx) "income" then
        balance_loop (Float.add balance (amount tx)) rest
      else if String.eqb (type tx) "expense" then
        balance_loop (Float.sub balance (amount tx)) rest
      else balance_loop balance rest
  end.

Definition calculate_balance (self : t) : float :=
  Float.round2 (balance_loop Float.zero (transactions self)).

(** The loop of [generate_summary], from the running [summary]. *)
Fixpoint summary_loop (summary : Summary) (l : list Transaction) : Summary :=
  match l with
  | [] => summary
  | tx :: rest =>
      if String.eqb (type tx) "income" then
        summary_loop {| income := Float.add (income summary) (amount tx);
                        expense := expense summary |} rest
      else if String.eqb (type tx) "expense" then
        summary_loop {| income := income summary;
                        expense := Float.add (expense summary) (amount tx) |}
                     rest
      else summary_loop summary rest
  end.

Definition generate_summary (self : t) : Summary :=
  let summary :=
    summary_loop {| income := Float.zero; expense := Float.zero |}
                 (transactions self) in
  {| income := Float.round2 (income summary);
     expense := Float.round2 (expense summary) |}.

Definition export_data (filename : string) (self : t) (w : World) : World :=
  match write_file filename (transactions_to_json (transactions self)) w with
  | Some w' => say (Exported filename) w'
  | None => say ExportFailed w
  end.

(** [import_data]: [None] when the payload passes the check of the source
    (a list of dictionaries) but holds a dictionary that is not a
    transaction, which a ledger of records cannot hold
    ([Untyped.import_data] covers it). *)
Definition import_data (filename : string) (self : t) (w : World)
    : option (t * World) :=
  match files w !! filename with
  | None => Some (self, say (ImportFileNotFound filename) w)
  | Some (Corrupt e) | Some (BadEncoding e) =>
      Some (self, say (ImportInvalid e) w)
  | Some (Document imported_data) =>
      if is_list_of_dicts imported_data then
        l ← transactions_of_json imported_data;
        let self := with_transactions self l in
        let self :=
          with_next_id self (py_max 0 (map id (transactions self)) + 1) in
        let w := _save_transactions self w in
        Some (self, say (Imported filename) w)
      else
        Some (self, say (ImportInvalid "Imported file format is incorrect.") w)
  end.

End PersonalFinanceLedger.

Import PersonalFinanceLedger.
Abbreviation Ledger := PersonalFinanceLedger.t.

(** ** The handlers of the command loop

    The answers of the prompts are the arguments: [handle_add] asks for the
    type, the category, the amount and the description, [handle_view] for a
    filter and, when the filter is [category], for the category. *)

(** [display_transactions]: the panel or the table it hands to
    [console.print], with the rows in the order given. *)
Definition display_transactions (l : list Transaction) (t : title)
    (w : World) : World :=
  match l with
  | [] => say (NoTransactions t) w
  | _ => say (TransactionTable t l) w
  end.

Definition handle_add (now : string) (tx_type category : string)
    (amount : float) (description : string) (ledger : Ledger) (w : World)
    : Ledger * World :=
  if Float.leb amount Float.zero then (ledger, say AmountRejected w)
  else add_transaction now tx_type category amount description ledger w.

Definition handle_delete (tx_id : Z) (ledger : Ledger) (w : World)
    : Ledger * World :=
  let '(_, ledger, w) := delete_transaction tx_id ledger w in (ledger, w).

Section View.

(** [str.lower], the lower-casing of Python strings. *)
Variable lower : string → string.

(** The list [handle_view] passes to [display_transactions] for the
    category [answer]. *)
Definition category_filter (answer : string) (l : list Transaction)
    : list Transaction :=
  let cat := lower answer in
  filter (λ t, lower (category t) = cat) l.

Definition handle_view (filter_choice : string) (category_answer : string)
    (ledger : Ledger) (w : World) : World :=
  if String.eqb (lower filter_choice) "all" then
    display_transactions (transactions ledger) FullHistory w
  else if String.eqb (lower filter_choice) "income"
          || String.eqb (lower filter_choice) "expense" then
    let filtered :=
      filter (λ t, type t = lower filter_choice) (transactions ledger) in
    display_transactions filtered (TypeTransactions filter_choice) w
  else if String.eqb (lower filter_choice) "category" then
    let cat := lower category_answer in
    let filtered :=
      filter (λ t, lower (category t) = cat) (transactions ledger) in
    display_transactions filtered (CategoryTransactions cat) w
  else say InvalidFilter w.

End View.

(** [str.lower] on ASCII letters. *)
Definition ascii_lower (c : Ascii.ascii) : Ascii.ascii :=
  let n := Ascii.nat_of_ascii c in
  if ((65 <=? n) && (n <=? 90))%nat then Ascii.ascii_of_nat (n + 32) else c.

Fixpoint lower_ascii (s : string) : string :=
  match s with
  | EmptyString => EmptyString
  | String c rest => String (ascii_lower c) (lower_ascii rest)
  end.

(** ** Runs of the program *)

(** One command of a session with its answers. *)
Inductive command : Type :=
  | Add (now tx_type category : string) (amount : float) (description : string)
  | Delete (tx_id : Z)
  | Export (filename : string)
  | Import (filename : string).

(** One command, through the method it calls: [None] when an import brings
    in dictionaries that are not transactions. *)
Definition exec (c : command) (st : Ledger * World) : option (Ledger * World) :=
  match c with
  | Add now ty cat a d => Some (add_transaction now ty cat a d st.1 st.2)
  | Delete tx_id => Some (handle_delete tx_id st.1 st.2)
  | Export f => Some (st.1, export_data f st.1 st.2)
  | Import f => import_data f st.1 st.2
  end.

Fixpoint run (cs : list command) (st : Ledger * World)
    : option (Ledger * World) :=
  match cs with
  | [] => Some st
  | c :: rest => st' ← exec c st; run rest st'
  end.

(** The states a process can be in while its ledger holds transactions
    only: the ledger was constructed from some files, and commands were run
    on it. *)
Definition reachable (st : Ledger * World) : Prop :=
  ∃ data_file w0 st0 cs,
    __init__ data_file w0 = Some st0 ∧ run cs st0 = Some st.

(** A world with no file. *)
Definition empty_world : World :=
  {| files := ∅; unwritable := ∅; console := [] |}.

(** ** The ledger on the values [json.load] returns

    [_load_transactions] and [import_data] put in memory what the file
    holds: [import_data] checks that it is a list of dictionaries,
    [_load_transactions] checks nothing, and neither looks at the keys.  The
    methods that change the ledger are modelled here on any list of JSON
    values.  Reading a key can raise ([KeyError] for a dictionary without
    it, [TypeError] for a value that is no dictionary); no method catches
    these, and the command loop reports them and goes on. *)

(** How a call ends: it returns [r]; an exception leaves it in the state
    [s]; or the model does not say (ids that are not integers, a data file
    that holds an empty dictionary or an empty string). *)
Inductive attempt (R S : Type) : Type :=
  | Returns (r : R)
  | Raises (s : S)
  | Unmodelled.

Arguments Returns {R S} r.
Arguments Raises {R S} s.
Arguments Unmodelled {R S}.

Fixpoint assoc (key : string) (fields : list (string * json)) : option json :=
  match fields with
  | [] => None
  | (k, v) :: rest => if String.eqb k key then Some v else assoc key rest
  end.

(** [t[key]] for a string [key]: [None] when it raises. *)
Definition getitem (key : string) (t : json) : option json :=
  match t with JObj fields => assoc key fields | _ => None end.

(** [x == n] for a float [x] and an integer [n]: Python compares the exact
    values. *)
Definition float_eq_int (x : float) (n : Z) : bool :=
  match x with
  | S754_zero _ => n =? 0
  | S754_finite s m e =>
      if 0 <=? e then cond_Zopp s (Zpos m * 2 ^ e) =? n
      else cond_Zopp s (Zpos m) =? n * 2 ^ (- e)
  | _ => false
  end.

(** [v == n] for a JSON value [v] and an integer [n]: numbers are compared
    by value ([True] is 1 and [False] is 0), and nothing else equals an
    integer. *)
Definition py_eq_int (v : json) (n : Z) : bool :=
  match v with
  | JInt z => z =? n
  | JBool b => (if b then 1 else 0) =? n
  | JFloat x => float_eq_int x n
  | _ => false
  end.

Definition as_int (v : json) : option Z :=
  match v with JInt z => Some z | _ => None end.

(** [max((t["id"] for t in l), default=0) + 1].  The generator raises at the
    first value without an ["id"], unless a comparison of [max] has raised
    before: either way an exception, and none that [import_data] catches.
    When every value has an id and every id is an integer, the result is
    the integer above the largest. *)
Definition next_id (l : list json) : attempt Z unit :=
  match mapM (getitem "id") l with
  | None => Raises ()
  | Some ids =>
      match mapM as_int ids with
      | Some zs => Returns (py_max 0 zs + 1)
      | None => Unmodelled
      end
  end.

(** [[t for t in l if t["id"] != tx_id]]: [None] when it raises. *)
Fixpoint without_id (tx_id : Z) (l : list json) : option (list json) :=
  match l with
  | [] => Some []
  | t :: rest =>
      v ← getitem "id" t;
      kept ← without_id tx_id rest;
      Some (if py_eq_int v tx_id then kept else t :: kept)
  end.

Module Untyped.

Record t : Type := {
  data_file : string;
  transactions : list json;
  _next_id : Z
}.

Definition with_transactions (self : t) (l : list json) : t :=
  {| data_file := data_file self; transactions := l;
     _next_id := _next_id self |}.

Definition with_next_id (self : t) (n : Z) : t :=
  {| data_file := data_file self; transactions := transactions self;
     _next_id := n |}.

(** [_load_transactions]: the value it assigns to [self.transactions];
    [None] when [UnicodeDecodeError] leaves the call. *)
Definition _load_transactions (data_file : string) (w : World)
    : option (json * World) :=
  match files w !! data_file with
  | Some (Document v) => Some (v, say (DataLoaded data_file) w)
  | None => Some (JArr [], say FreshLedger w)
  | Some (Corrupt _) => Some (JArr [], say LoadCorrupt w)
  | Some (BadEncoding _) => None
  end.

(** [__init__]: the generator of line 48 goes through the loaded value.  A
    list gives its items; a dictionary its keys and a string its
    characters, on which [t["id"]] raises; [None], a boolean or a number
    cannot be gone through.  An empty dictionary or string gives nothing,
    and the ledger is constructed around a value that is no list. *)
Definition __init__ (data_file : string) (w : World)
    : attempt (t * World) World :=
  match _load_transactions data_file w with
  | None => Raises w
  | Some (JArr items, w') =>
      match next_id items with
      | Returns n =>
          Returns ({| data_file := data_file; transactions := items;
                      _next_id := n |}, w')
      | Raises _ => Raises w'
      | Unmodelled => Unmodelled
      end
  | Some (JObj [], _) | Some (JStr EmptyString, _) => Unmodelled
  | Some (_, w') => Raises w'
  end.

Definition _save_transactions (self : t) (w : World) : World :=
  match write_file (data_file self) (JArr (transactions self)) w with
  | Some w' => w'
  | None => say SaveFailed w
  end.

Definition add_transaction (now : string) (tx_type category : string)
    (amount : float) (description : string) (self : t) (w : World)
    : t * World :=
  let new_transaction :=
    {| id := _next_id self; date := now; type := tx_type;
       category := category; amount := Float.round2 amount;
       description := description |} in
  let self := with_transactions self
                (transactions self ++ [transaction_to_json new_transaction]) in
  let self := with_next_id self (_next_id self + 1) in
  let w := _save_transactions self w in
  (self, say (TransactionAdded tx_type (id new_transaction)) w).

(** [delete_transaction]: when the comprehension raises, nothing has been
    assigned. *)
Definition delete_transaction (tx_id : Z) (self : t) (w : World)
    : attempt (bool * t * World) (t * World) :=
  let initial_count := length (transactions self) in
  match without_id tx_id (transactions self) with
  | None => Raises (self, w)
  | Some kept =>
      let self := with_transactions self kept in
      if (length (transactions self) <? initial_count)%nat then
        let w := _save_transactions self w in
        Returns (true, self, say (TransactionDeleted tx_id) w)
      else
        Returns (false, self, say (TransactionNotFound tx_id) w)
  end.

Definition export_data (filename : string) (self : t) (w : World) : World :=
  match write_file filename (JArr (transactions self)) w with
  | Some w' => say (Exported filename) w'
  | None => say ExportFailed w
  end.

(** [import_data]: line 163 assigns the list before line 164 goes through
    its ids; when that raises, the transactions are replaced, the counter
    is the old one and nothing is saved. *)
Definition import_data (filename : string) (self : t) (w : World)
    : attempt (t * World) (t * World) :=
  match files w !! filename with
  | None => Returns (self, say (ImportFileNotFound filename) w)
  | Some (Corrupt e) | Some (BadEncoding e) =>
      Returns (self, say (ImportInvalid e) w)
  | Some (Document imported_data) =>
      match imported_data with
      | JArr items =>
          if forallb is_dict items then
            let self := with_transactions self items in
            match next_id (transactions self) with
            | Returns n =>
                let self := with_next_id self n in
                let w := _save_transactions self w in
                Returns (self, say (Imported filename) w)
            | Raises _ => Raises (self, w)
            | Unmodelled => Unmodelled
            end
          else
            Returns (self,
                     say (ImportInvalid "Imported file format is incorrect.") w)
      | _ =>
          Returns (self,
                   say (ImportInvalid "Imported file format is incorrect.") w)
      end
  end.

(** One command as the loop of [run_cli] runs it: an exception that leaves
    the handler is reported and the loop goes on.  [None] when the model
    does not say. *)
Definition exec (c : command) (st : t * World) : option (t * World) :=
  match c with
  | Add now ty cat a d => Some (add_transaction now ty cat a d st.1 st.2)
  | Delete tx_id =>
      match delete_transaction tx_id st.1 st.2 with
      | Returns (_, self, w) => Some (self, w)
      | Raises (self, w) => Some (self, say UnexpectedError w)
      | Unmodelled => None
      end
  | Export f => Some (st.1, export_data f st.1 st.2)
  | Import f =>
      match import_data f st.1 st.2 with
      | Returns st' => Some st'
      | Raises (self, w) => Some (self, say UnexpectedError w)
      | Unmodelled => None
      end
  end.

Fixpoint run (cs : list command) (st : t * World) : option (t * World) :=
  match cs with
  | [] => Some st
  | c :: rest => st' ← exec c st; run rest st'
  end.

End Untyped.

(** A ledger of records as the list of dictionaries it stands for. *)
Definition of_ledger (self : Ledger) : Untyped.t :=
  {| Untyped.data_file := data_file self;
     Untyped.transactions := map transaction_to_json (transactions self);
     Untyped._next_id := _next_id self |}.

Definition of_state (st : Ledger * World) : Untyped.t * World :=
  (of_ledger st.1, st.2).

(** ** Notions the properties are stated with *)

(** The transactions the two loops look at. *)
Definition counted (t : Transaction) : Prop :=
  type t = "income"%string ∨ type t = "expense"%string.

#[local] Instance counted_dec t : Decision (counted t).
Proof. unfold counted. apply _. Defined.

(** Every id in the ledger is below the counter. *)
Definition ids_below (self : Ledger) : Prop :=
  Forall (λ t, id t < _next_id self) (transactions self).


Definition no_import (c : command) : Prop :=
  match c with Import _ => False | _ => True end.

(** The state of a process that found no file. *)
Definition fresh_state : Ledger * World :=
  ({| data_file := "ledger_data.json"; transactions := []; _next_id := 1 |},
   say FreshLedger empty_world).

(** *** Memory and disk *)

(** The data file holds the transactions of the ledger, or is absent or
    rejected by the JSON decoder while the ledger is empty: what
    [_load_transactions] would read is what the ledger has. *)
Definition on_disk (st : Ledger * World) : Prop :=
  match files st.2 !! data_file st.1 with
  | Some (Document v) => v = transactions_to_json (transactions st.1)
  | Some (BadEncoding _) => False
  | _ => transactions st.1 = []
  end.

(** Every file that passes the check of [import_data], a list of
    dictionaries, holds transactions. *)
Definition transactions_only (w : World) : Prop :=
  ∀ f v, files w !! f = Some (Document v) →
         is_list_of_dicts v = true → is_Some (transactions_of_json v).

(** *** Guards, signs and counts *)

(** The amounts for which [amount <= 0] is false: NaN, plus infinity and
    the positive finite floats. *)
Definition passes_guard (a : float) : Prop :=
  match a with
  | S754_nan | S754_infinity false | S754_finite false _ _ => True
  | _ => False
  end.

(** Equal, or both zero (of any signs): what [==] sees as equal, NaN
    apart. *)
Definition same_or_zeros (x y : float) : Prop :=
  x = y ∨ ∃ s1 s2, x = S754_zero s1 ∧ y = S754_zero s2.

(** The number of adds among commands. *)
Fixpoint adds_in (cs : list command) : Z :=
  match cs with
  | [] => 0
  | Add _ _ _ _ _ :: rest => 1 + adds_in rest
  | _ :: rest => adds_in rest
  end.

(** *** Ledgers in hundredths *)

(** The amounts of [l] are the floats for the hundredths [ks]: each is a
    float written with two decimals, as [add_transaction] stores them. *)
Definition in_cents (l : list Transaction) (ks : list Z) : Prop :=
  Forall2 (λ t k, 0 ≤ k ∧ amount t = Float.cents k) l ks.

Definition total (ks : list Z) : Z := foldr Z.add 0 ks.

(** The exact income and expense totals, in hundredths. *)
Fixpoint income_cents (l : list Transaction) (ks : list Z) : Z :=
  match l, ks with
  | t :: l', k :: ks' =>
      (if String.eqb (type t) "income" then k else 0) + income_cents l' ks'
  | _, _ => 0
  end.

Fixpoint expense_cents (l : list Transaction) (ks : list Z) : Z :=
  match l, ks with
  | t :: l', k :: ks' =>
      (if String.eqb (type t) "income" then 0
       else if String.eqb (type t) "expense" then k else 0)
      + expense_cents l' ks'
  | _, _ => 0
  end.

(** A float written with two decimals. *)
Definition two_decimals (x : float) : Prop := ∃ k, 0 ≤ k ∧ x = Float.cents k.

(** The commands of a session of adds and deletes: an add that [handle_add]
    lets through with a finite amount, or a delete. *)
Definition accepted_add_or_delete (c : command) : Prop :=
  match c with
  | Add _ _ _ (S754_finite false _ _) _ => True
  | Delete _ => True
  | _ => False
  end.

(** *** Exact values of floats *)

(** The value of a float, in units of [2^-1074]. *)
Definition scaled (x : float) : Z :=
  match x with
  | S754_finite s m e => cond_Zopp s (Zpos m * 2 ^ (e + 1074))
  | _ => 0
  end.

(** Zero, or finite with an exponent a binary64 number can have. *)
Definition small (x : float) : Prop :=
  match x with
  | S754_zero _ => True
  | S754_finite _ _ e => -1074 ≤ e
  | _ => False
  end.

(** The float for [K / 100], [K] of either sign; [s0] is the sign of the
    zero. *)
Definition cents_signed (K : Z) (s0 : bool) : float :=
  match K with
  | Zpos p => Float.of_ratio false p 100
  | Zneg p => Float.of_ratio true p 100
  | Z0 => S754_zero s0
  end.

(** [x] is small and within [c * 2^-53] hundredths of [K / 100]. *)
Definition approx (x : float) (K c : Z) : Prop :=
  small x
  ∧ Z.abs (2 ^ 53 * (100 * scaled x - K * 2 ^ 1074)) ≤ c * 2 ^ 1074.

(** What a shift record says about the number [N / D] it was cut from. *)
Record rep (N D : Z) (mrs : shr_record) : Prop := {
  rep_den : 0 < D;
  rep_nonneg : 0 ≤ shr_m mrs;
  rep_floor : shr_m mrs * D ≤ N < (shr_m mrs + 1) * D;
  rep_round : shr_r mrs = true ↔ D ≤ 2 * (N - shr_m mrs * D);
  rep_sticky : shr_s mrs = true ↔ N ≠ shr_m mrs * D ∧ 2 * (N - shr_m mrs * D) ≠ D
}.

(** * Properties *)

(** ** Binary64 arithmetic: rounding errors

    The standard model of rounding, derived from the definitions of
    [SpecFloat]: the sum and the difference of two floats, and the float
    for a decimal, are within a relative error of [2^-53] of the exact
    result; [round(x, 2)] of a float within half a hundredth of a decimal
    is the float for that decimal.  Values are counted in units of
    [2^-1074], so that they are integers. *)

(** The floats of the model behave as Python's: a few well-known values. *)
Example python_floats :
  (* 0.1 + 0.2 == 0.30000000000000004 *)
  Float.add (Float.cents 10) (Float.cents 20)
  = S754_finite false 5404319552844596 (-54)
  ∧ Float.cents 30 = S754_finite false 5404319552844595 (-54)
  (* round(2.675, 2) == 2.67 *)
  ∧ Float.round2 (Float.of_ratio false 2675 1000) = Float.cents 267
  (* round(0.125, 2) == 0.12 and round(0.375, 2) == 0.38 *)
  ∧ Float.round2 (Float.of_ratio false 1 8) = Float.cents 12
  ∧ Float.round2 (Float.of_ratio false 3 8) = Float.cents 38
  (* round(-0.001, 2) == -0.0 *)
  ∧ Float.round2 (Float.of_ratio true 1 1000) = S754_zero true
  (* 1000.0 - 45.5 == 954.5 *)
  ∧ Float.sub (Float.cents 100000) (Float.cents 4550) = Float.cents 95450.
Proof. vm_compute. done. Qed.

(** The number of binary digits of [m]. *)
Lemma digits2_pos_bounds (m : positive) :
  2 ^ (Zpos (digits2_pos m) - 1) ≤ Zpos m < 2 ^ Zpos (digits2_pos m).
Proof.
  induction m as [m IH|m IH|]; simpl digits2_pos; [| |simpl; lia].
  all: rewrite Pos2Z.inj_succ; set (d := Zpos (digits2_pos m)) in *.
  all: assert (1 ≤ d) as Hd1 by (subst d; lia); clearbody d.
  all: assert (2 ^ d = 2 * 2 ^ (d - 1)) as Hd
         by (rewrite <- Z.pow_succ_r by lia; f_equal; lia).
  all: replace (Z.succ d - 1) with d by lia; rewrite Z.pow_succ_r by lia.
  all: set (A := 2 ^ d) in *; set (B := 2 ^ (d - 1)) in *; clearbody A B.
  - rewrite Pos2Z.inj_xI. lia.
  - rewrite Pos2Z.inj_xO. lia.
Qed.

(** One step of [shr] halves the unit and keeps the record right. *)
Lemma shr_1_rep N D mrs : rep N D mrs → rep N (2 * D) (shr_1 mrs).
Proof.
  intros [HD Hm Hfl Hr Hs]. destruct mrs as [m r s]. simpl in *.
  assert (r || s = true ↔ N ≠ m * D) as Hrs.
  { rewrite orb_true_iff, Hr, Hs. lia. }
  destruct m as [|[p|p|]|p]; try lia; simpl;
    try change (Z.pos p~1) with (2 * Z.pos p + 1) in *;
    try change (Z.pos p~0) with (2 * Z.pos p) in *;
    (constructor; simpl; [lia|lia|lia|..]).
  all: try (rewrite Hrs; lia).
  all: split; intros; try done; try lia.
Qed.

Lemma rep_den_eq N D D' mrs : D = D' → rep N D mrs → rep N D' mrs.
Proof. by intros ->. Qed.

Lemma iter_shr_1_rep N p : ∀ D mrs,
  rep N D mrs → rep N (2 ^ Zpos p * D) (SpecFloat.iter_pos shr_1 p mrs).
Proof.
  induction p as [p IH|p IH|]; intros D mrs Hrep; simpl SpecFloat.iter_pos.
  - apply (rep_den_eq N (2 ^ Zpos p * (2 ^ Zpos p * (2 * D)))).
    + change (Zpos p~1) with (2 * Zpos p + 1).
      rewrite Z.pow_add_r, Z.pow_1_r by lia.
      replace (2 * Zpos p) with (Zpos p + Zpos p) by lia.
      rewrite Z.pow_add_r by lia. ring.
    + by apply IH, IH, shr_1_rep.
  - apply (rep_den_eq N (2 ^ Zpos p * (2 ^ Zpos p * D))).
    + change (Zpos p~0) with (2 * Zpos p).
      replace (2 * Zpos p) with (Zpos p + Zpos p) by lia.
      rewrite Z.pow_add_r by lia. ring.
    + by apply IH, IH.
  - apply (rep_den_eq N (2 * D)); [by rewrite Z.pow_1_r|].
    by apply shr_1_rep.
Qed.

(** Shifting by [n >= 0] places. *)
Lemma shr_rep N D mrs e n :
  0 ≤ n → rep N D mrs →
  rep N (2 ^ n * D) (shr mrs e n).1 ∧ (shr mrs e n).2 = e + n.
Proof.
  intros Hn Hrep. destruct n as [|p|p]; try lia; simpl.
  - split; [|lia]. eapply rep_den_eq; [|exact Hrep]. lia.
  - split; [|done]. by apply iter_shr_1_rep.
Qed.

(** Rounding a record to nearest even is off by at most half a unit. *)
Lemma round_nearest_even_rep N D mrs :
  rep N D mrs →
  let m1 := round_nearest_even (shr_m mrs) (loc_of_shr_record mrs) in
  shr_m mrs ≤ m1 ≤ shr_m mrs + 1 ∧ - D ≤ 2 * (m1 * D - N) ≤ D.
Proof.
  intros [HD Hm Hfl Hr Hs]. destruct mrs as [m [] []]; simpl in *.
  - assert (D ≤ 2 * (N - m * D)) by (by apply Hr). lia.
  - assert (D ≤ 2 * (N - m * D)) by (by apply Hr).
    assert (¬ (N ≠ m * D ∧ 2 * (N - m * D) ≠ D)) as Hn
      by (intros Hc; by apply Hs in Hc).
    destruct (Z.even m); lia.
  - assert (¬ D ≤ 2 * (N - m * D)) by (intros Hc; by apply Hr in Hc). lia.
  - assert (¬ D ≤ 2 * (N - m * D)) by (intros Hc; by apply Hr in Hc). lia.
Qed.

Lemma rep_exact m : 0 ≤ m → rep m 1 (shr_record_of_loc m loc_Exact).
Proof. intros Hm. constructor; simpl; try lia; split; intros; try done; lia. Qed.

Lemma digits2_pos_unique (p : positive) (k : Z) :
  2 ^ (k - 1) ≤ Zpos p < 2 ^ k → Zpos (digits2_pos p) = k.
Proof.
  intros [Hlo Hhi]. pose proof (digits2_pos_bounds p) as [Hlo' Hhi'].
  set (d := Zpos (digits2_pos p)) in *.
  assert (1 ≤ d) by (subst d; lia). clearbody d.
  destruct (Z.lt_trichotomy d k) as [Hlt|[Heq|Hgt]]; [|done|].
  - assert (2 ^ d ≤ 2 ^ (k - 1)) by (apply Z.pow_le_mono_r; lia).
    set (A := 2 ^ d) in *. set (B := 2 ^ (k - 1)) in *. clearbody A B. lia.
  - assert (0 ≤ k).
    { destruct (Z.le_gt_cases 0 k); [done|].
      rewrite (Z.pow_neg_r 2 k) in Hhi by lia. lia. }
    assert (2 ^ k ≤ 2 ^ (d - 1)) by (apply Z.pow_le_mono_r; lia).
    set (A := 2 ^ k) in *. set (B := 2 ^ (d - 1)) in *. clearbody A B. lia.
Qed.

Lemma fexp_normal z : -1021 ≤ z → fexp 53 1024 z = z - 53.
Proof. intros Hz. unfold fexp, emin. lia. Qed.

Lemma pow2_pos z : 0 ≤ z → 0 < 2 ^ z.
Proof. intros Hz. by apply Z.pow_pos_nonneg. Qed.

Lemma shr_m_of_loc m l : shr_m (shr_record_of_loc m l) = m.
Proof. by destruct l as [|[]]. Qed.

(** Rounding [N / D0 * 2^e], cut as [(mp, l)], when [mp] has at least 53
    bits: the result is finite and within [2^-53] of it, relatively. *)
Lemma binary_round_aux_normal (s : bool) (mp : positive) (e : Z)
    (l : location) (N D0 : Z) :
  53 ≤ Zpos (digits2_pos mp) → -1074 ≤ e →
  Zpos (digits2_pos mp) + e ≤ 1000 →
  rep N D0 (shr_record_of_loc (Zpos mp) l) →
  ∃ m2 e2,
    binary_round_aux 53 1024 s (Zpos mp) e l = S754_finite s m2 e2
    ∧ e ≤ e2
    ∧ - (N * 2 ^ (e + 1074))
      ≤ 2 ^ 53 * (Zpos m2 * 2 ^ (e2 + 1074) * D0 - N * 2 ^ (e + 1074))
      ≤ N * 2 ^ (e + 1074).
Proof.
  intros Hd He Hde Hrep0.
  pose proof (digits2_pos_bounds mp) as Hmp.
  set (d := Zpos (digits2_pos mp)) in *.
  unfold binary_round_aux, shr_fexp. simpl Zdigits2. fold d.
  rewrite fexp_normal by lia.
  replace (d + e - 53 - e) with (d - 53) by lia.
  destruct (shr_rep N D0 (shr_record_of_loc (Zpos mp) l) e (d - 53))
    as [Hrep He']; [lia|done|].
  destruct (shr (shr_record_of_loc (Zpos mp) l) e (d - 53)) as [mrs' e'].
  simpl in Hrep, He'. subst e'.
  pose proof (round_nearest_even_rep _ _ _ Hrep) as [Hm1 Hnear].
  set (m1 := round_nearest_even (shr_m mrs') (loc_of_shr_record mrs')) in *.
  clearbody m1.
  destruct Hrep as [HD Hm Hfl _ _]. destruct Hrep0 as [HD0 _ Hfl0 _ _].
  rewrite shr_m_of_loc in Hfl0.
  set (T := 2 ^ (d - 53)) in *.
  assert (0 < T) as HT by (apply pow2_pos; lia).
  assert (2 ^ (d - 1) = 2 ^ 52 * T) as Hlo.
  { unfold T. rewrite <- Z.pow_add_r by lia. f_equal. lia. }
  assert (2 ^ d = 2 ^ 53 * T) as Hhi.
  { unfold T. rewrite <- Z.pow_add_r by lia. f_equal. lia. }
  rewrite Hlo, Hhi in Hmp.
  set (Q := 2 ^ (e + 1074)) in *.
  assert (0 < Q) as HQ by (apply pow2_pos; lia).
  assert (2 ^ (e + (d - 53) + 1074) = T * Q) as HTQ.
  { unfold T, Q. rewrite <- Z.pow_add_r by lia. f_equal. lia. }
  assert (2 ^ (e + (d - 53) + 1 + 1074) = 2 * (T * Q)) as HTQ1.
  { rewrite <- HTQ, <- Z.pow_succ_r by lia. f_equal. lia. }
  clearbody T Q.
  set (Y := T * D0) in *.
  assert (0 < Y) as HY by (unfold Y; lia).
  assert (2 ^ 52 * Y ≤ N) as HNlo by (unfold Y; nia).
  assert (N < 2 ^ 53 * Y) as HNhi by (unfold Y; nia).
  assert (2 ^ 52 ≤ shr_m mrs' < 2 ^ 53) as Hmb by (split; nia).
  assert (- N ≤ 2 ^ 53 * (m1 * Y - N) ≤ N) as Hrel by lia.
  destruct (decide (m1 = 9007199254740992)) as [->|Hne].
  - exists (4503599627370496%positive), (e + (d - 53) + 1).
    split_and!.
    + change (Zdigits2 9007199254740992) with 54.
      rewrite fexp_normal by lia.
      replace (54 + (e + (d - 53)) - 53 - (e + (d - 53))) with 1 by lia.
      cbn. replace (_ <=? _) with true; [done|].
      symmetry. apply Z.leb_le. lia.
    + lia.
    + rewrite HTQ1.
      replace (4503599627370496 * (2 * (T * Q)) * D0 - N * Q)
        with ((2 ^ 53 * Y - N) * Q) by (unfold Y; ring).
      nia.
    + rewrite HTQ1.
      replace (4503599627370496 * (2 * (T * Q)) * D0 - N * Q)
        with ((2 ^ 53 * Y - N) * Q) by (unfold Y; ring).
      nia.
  - destruct m1 as [|q|q]; try lia.
    assert (Zpos (digits2_pos q) = 53) as Hdq
      by (apply digits2_pos_unique; lia).
    exists q, (e + (d - 53)). split_and!.
    + simpl Zdigits2. rewrite Hdq, fexp_normal by lia.
      replace (53 + (e + (d - 53)) - 53 - (e + (d - 53))) with 0 by lia.
      cbn. replace (_ <=? _) with true; [done|].
      symmetry. apply Z.leb_le. lia.
    + lia.
    + rewrite HTQ.
      replace (Z.pos q * (T * Q) * D0 - N * Q)
        with ((Z.pos q * Y - N) * Q) by (unfold Y; ring).
      nia.
    + rewrite HTQ.
      replace (Z.pos q * (T * Q) * D0 - N * Q)
        with ((Z.pos q * Y - N) * Q) by (unfold Y; ring).
      nia.
Qed.

Lemma iter_xO_value (m p : positive) :
  Zpos (Pos.iter xO m p) = Zpos m * 2 ^ Zpos p.
Proof.
  induction p as [|p IH] using Pos.peano_ind.
  - by rewrite Z.pow_1_r, Z.mul_comm.
  - rewrite Pos.iter_succ, Pos2Z.inj_succ, Z.pow_succ_r by lia.
    change (Zpos (Pos.iter xO m p)~0) with (2 * Zpos (Pos.iter xO m p)).
    rewrite IH. ring.
Qed.

Lemma digits2_pos_shift (m p : positive) :
  Zpos (digits2_pos (Pos.iter xO m p)) = Zpos (digits2_pos m) + Zpos p.
Proof.
  apply digits2_pos_unique. rewrite iter_xO_value.
  pose proof (digits2_pos_bounds m) as Hm.
  set (d := Zpos (digits2_pos m)) in *.
  assert (1 ≤ d) by (subst d; lia). clearbody d.
  replace (d + Zpos p - 1) with (d - 1 + Zpos p) by lia.
  rewrite !Z.pow_add_r by lia.
  assert (0 < 2 ^ Zpos p) by (by apply pow2_pos).
  set (A := 2 ^ (d - 1)) in *. set (B := 2 ^ d) in *.
  set (C := 2 ^ Zpos p) in *. clearbody A B C. nia.
Qed.

Lemma shl_align_value (m : positive) (e e' : Z) :
  e' ≤ e →
  Zpos (shl_align m e e').1 = Zpos m * 2 ^ (e - e')
  ∧ (shl_align m e e').2 = e'
  ∧ Zpos (digits2_pos (shl_align m e e').1) = Zpos (digits2_pos m) + (e - e').
Proof.
  intros Hle. unfold shl_align.
  destruct (e' - e) as [|p|p] eqn:Hsub; try lia; simpl.
  - replace (e - e') with 0 by lia. rewrite Z.pow_0_r. lia.
  - replace (e - e') with (Zpos p) by lia.
    by rewrite iter_xO_value, digits2_pos_shift.
Qed.

(** Rounding a number that needs no rounding. *)
Lemma binary_round_aux_exact (s : bool) (mp : positive) (e : Z) :
  Zpos (digits2_pos mp) ≤ 53 → -1074 ≤ e ≤ 971 →
  (Zpos (digits2_pos mp) < 53 → e = -1074) →
  binary_round_aux 53 1024 s (Zpos mp) e loc_Exact = S754_finite s mp e.
Proof.
  intros Hd He Hsub.
  unfold binary_round_aux, shr_fexp. simpl Zdigits2.
  set (d := Zpos (digits2_pos mp)) in *.
  assert (fexp 53 1024 (d + e) - e = 0) as ->.
  { unfold fexp, emin. destruct (decide (d = 53)) as [->|]; lia. }
  simpl. fold d.
  assert (fexp 53 1024 (d + e) - e = 0) as ->.
  { unfold fexp, emin. destruct (decide (d = 53)) as [->|]; lia. }
  simpl. replace (e <=? 1024 - 53) with true; [done|].
  symmetry. apply Z.leb_le. lia.
Qed.

(** [binary_round]: finite, and within [2^-53], relatively, of the number
    [mp * 2^e] it rounds. *)
Lemma binary_round_bound (s : bool) (mp : positive) (e : Z) :
  -1074 ≤ e → Zpos (digits2_pos mp) + e ≤ 1000 →
  ∃ m2 e2,
    binary_round 53 1024 s mp e = S754_finite s m2 e2
    ∧ -1074 ≤ e2
    ∧ - (Zpos mp * 2 ^ (e + 1074))
      ≤ 2 ^ 53 * (Zpos m2 * 2 ^ (e2 + 1074) - Zpos mp * 2 ^ (e + 1074))
      ≤ Zpos mp * 2 ^ (e + 1074).
Proof.
  intros He Hde. unfold binary_round.
  set (d := Zpos (digits2_pos mp)) in *.
  assert (1 ≤ d) as Hd1 by (subst d; lia).
  assert (0 < 2 ^ (e + 1074)) as HQ by (apply pow2_pos; lia).
  destruct (Z.le_gt_cases (fexp 53 1024 (d + e)) e) as [Hle|Hgt].
  - (* the mantissa is shifted left, or kept: nothing is lost *)
    destruct (shl_align_value mp e (fexp 53 1024 (d + e)) Hle)
      as (Hv & He2 & Hdig).
    destruct (shl_align mp e (fexp 53 1024 (d + e))) as [mz ez].
    simpl in Hv, He2, Hdig. subst ez. fold d in Hdig.
    assert (-1074 ≤ fexp 53 1024 (d + e)) by (unfold fexp, emin; lia).
    exists mz, (fexp 53 1024 (d + e)). split_and!.
    + apply binary_round_aux_exact; rewrite ?Hdig;
        unfold fexp, emin in *; lia.
    + done.
    + rewrite Hv, <- Z.mul_assoc, <- Z.pow_add_r by lia.
      replace (e - fexp 53 1024 (d + e) + (fexp 53 1024 (d + e) + 1074))
        with (e + 1074) by lia.
      set (Q := 2 ^ (e + 1074)) in *. clearbody Q. nia.
    + rewrite Hv, <- Z.mul_assoc, <- Z.pow_add_r by lia.
      replace (e - fexp 53 1024 (d + e) + (fexp 53 1024 (d + e) + 1074))
        with (e + 1074) by lia.
      set (Q := 2 ^ (e + 1074)) in *. clearbody Q. nia.
  - (* the mantissa has more than 53 bits *)
    assert (53 < d) by (unfold fexp, emin in Hgt; lia).
    unfold shl_align.
    destruct (fexp 53 1024 (d + e) - e) as [|p|p] eqn:Hsub; try lia.
    destruct (binary_round_aux_normal s mp e loc_Exact (Zpos mp) 1)
      as (m2 & e2 & Heq & He2 & Hb); try (fold d; lia).
    { by apply rep_exact. }
    exists m2, e2. split_and!; [done|lia|..].
    + rewrite Z.mul_1_r in Hb. apply Hb.
    + rewrite Z.mul_1_r in Hb. apply Hb.
Qed.

Lemma digits_from_value (mp : positive) (e : Z) :
  -1074 ≤ e → Zpos mp * 2 ^ (e + 1074) < 2 ^ 2000 →
  Zpos (digits2_pos mp) + e ≤ 1000.
Proof.
  intros He Hv. pose proof (digits2_pos_bounds mp) as [Hlo _].
  set (d := Zpos (digits2_pos mp)) in *.
  assert (1 ≤ d) by (subst d; lia). clearbody d.
  assert (2 ^ (d - 1 + (e + 1074)) < 2 ^ 2000) as Hlt.
  { rewrite Z.pow_add_r by lia.
    assert (0 < 2 ^ (e + 1074)) by (apply pow2_pos; lia).
    set (A := 2 ^ (d - 1)) in *. set (Q := 2 ^ (e + 1074)) in *.
    set (B := 2 ^ 2000) in *. clearbody A Q B. nia. }
  apply Z.pow_lt_mono_r_iff in Hlt; lia.
Qed.

Lemma binary_normalize_bound (M e : Z) :
  -1074 ≤ e → Z.abs (M * 2 ^ (e + 1074)) < 2 ^ 2000 →
  small (binary_normalize 53 1024 M e false)
  ∧ Z.abs (2 ^ 53 * (scaled (binary_normalize 53 1024 M e false)
                     - M * 2 ^ (e + 1074)))
    ≤ Z.abs (M * 2 ^ (e + 1074)).
Proof.
  intros He Hv.
  assert (0 < 2 ^ (e + 1074)) as HQ by (apply pow2_pos; lia).
  destruct M as [|mp|mp]; simpl binary_normalize.
  - simpl. lia.
  - destruct (binary_round_bound false mp e He) as (m2 & e2 & -> & He2 & Hb).
    { apply digits_from_value; [done|]. lia. }
    simpl. split; [done|]. lia.
  - destruct (binary_round_bound true mp e He) as (m2 & e2 & -> & He2 & Hb).
    { apply digits_from_value; [done|].
      change (Z.neg mp) with (- Zpos mp) in Hv. lia. }
    simpl. split; [done|].
    change (Z.neg mp) with (- Zpos mp). lia.
Qed.

Lemma aligned_value (s : bool) (m : positive) (e ez : Z) :
  -1074 ≤ ez ≤ e →
  cond_Zopp s (Zpos (shl_align m e ez).1) * 2 ^ (ez + 1074)
  = scaled (S754_finite s m e).
Proof.
  intros He. destruct (shl_align_value m e ez) as (-> & _ & _); [lia|].
  simpl. replace (e + 1074) with (e - ez + (ez + 1074)) by lia.
  rewrite (Z.pow_add_r 2 (e - ez) (ez + 1074)) by lia.
  destruct s; simpl; ring.
Qed.

(** Float addition: the sum of two small floats is small and within
    [2^-53], relatively, of the exact sum. *)
Lemma add_bound (x y : float) :
  small x → small y → Z.abs (scaled x + scaled y) < 2 ^ 2000 →
  small (Float.add x y)
  ∧ Z.abs (2 ^ 53 * (scaled (Float.add x y) - (scaled x + scaled y)))
    ≤ Z.abs (scaled x + scaled y).
Proof.
  intros Hx Hy Hv.
  destruct x as [sx|sx| |sx mx ex], y as [sy|sy| |sy my ey]; try done.
  - destruct sx, sy; simpl; lia.
  - simpl. split; [done|]. lia.
  - simpl. split; [done|]. lia.
  - unfold Float.add, SFadd. simpl in Hx, Hy.
    set (ez := Z.min ex ey).
    set (M := cond_Zopp sx (Zpos (shl_align mx ex ez).1)
              + cond_Zopp sy (Zpos (shl_align my ey ez).1)).
    assert (M * 2 ^ (ez + 1074)
            = scaled (S754_finite sx mx ex) + scaled (S754_finite sy my ey))
      as HM.
    { unfold M. rewrite Z.mul_add_distr_r, !aligned_value by lia. done. }
    rewrite <- HM in *. apply binary_normalize_bound; [lia|done].
Qed.

Lemma sub_bound (x y : float) :
  small x → small y → Z.abs (scaled x - scaled y) < 2 ^ 2000 →
  small (Float.sub x y)
  ∧ Z.abs (2 ^ 53 * (scaled (Float.sub x y) - (scaled x - scaled y)))
    ≤ Z.abs (scaled x - scaled y).
Proof.
  intros Hx Hy Hv.
  destruct x as [sx|sx| |sx mx ex], y as [sy|sy| |sy my ey]; try done.
  - destruct sx, sy; simpl; lia.
  - simpl. split; [done|]. destruct sy; simpl; lia.
  - simpl. split; [done|]. lia.
  - unfold Float.sub, SFsub. simpl in Hx, Hy.
    set (ez := Z.min ex ey).
    set (M := cond_Zopp sx (Zpos (shl_align mx ex ez).1)
              - cond_Zopp sy (Zpos (shl_align my ey ez).1)).
    assert (M * 2 ^ (ez + 1074)
            = scaled (S754_finite sx mx ex) - scaled (S754_finite sy my ey))
      as HM.
    { unfold M. rewrite Z.mul_sub_distr_r, !aligned_value by lia. done. }
    rewrite <- HM in *. apply binary_normalize_bound; [lia|done].
Qed.

(** The quotient and remainder of a division by 100, as a record. *)
Lemma new_location_100_rep (q r : Z) :
  0 ≤ q → 0 ≤ r < 100 →
  rep (100 * q + r) 100 (shr_record_of_loc q (new_location 100 r)).
Proof.
  intros Hq Hr. unfold new_location. change (Z.even 100) with true.
  unfold new_location_even.
  destruct (Z.eqb_spec r 0) as [->|Hr0].
  - constructor; simpl; try lia; split; intros; try done; lia.
  - destruct (Z.compare_spec (2 * r) 100); constructor; simpl; try lia;
      split; intros; try done; lia.
Qed.

(** The float for [k / 100] is finite and within [2^-53], relatively, of
    that fraction. *)
Lemma of_ratio_100_bound (s : bool) (k : positive) :
  Zpos k < 2 ^ 900 →
  ∃ m e,
    Float.of_ratio s k 100 = S754_finite s m e
    ∧ -1074 ≤ e
    ∧ Z.abs (2 ^ 53 * (Zpos m * 2 ^ (e + 1074) * 100 - Zpos k * 2 ^ 1074))
      ≤ Zpos k * 2 ^ 1074.
Proof.
  intros Hk.
  unfold Float.of_ratio, SFdiv_core_binary, Float.prec, Float.emax.
  lazy zeta.
  change (Zdigits2 (Zpos k)) with (Zpos (digits2_pos k)).
  change (Zdigits2 100) with 7.
  pose proof (digits2_pos_bounds k) as Hdk.
  set (d1 := Zpos (digits2_pos k)) in *.
  assert (1 ≤ d1) as Hd1 by (subst d1; lia). clearbody d1.
  replace (d1 + 0 - (7 + 0)) with (d1 - 7) by lia.
  rewrite fexp_normal by lia. change (0 - 0) with 0.
  set (e' := Z.min (d1 - 7 - 53) 0).
  assert (-59 ≤ e' ≤ 0) as He' by (unfold e'; lia).
  set (m' := match 0 - e' with
             | Zpos _ => Z.shiftl (Zpos k) (0 - e')
             | 0 => Zpos k
             | Zneg _ => 0
             end).
  assert (m' = Zpos k * 2 ^ (- e')) as Hm'.
  { unfold m'. destruct (0 - e') as [|p|p] eqn:Hs; try lia.
    - replace (- e') with 0 by lia. rewrite Z.pow_0_r. lia.
    - rewrite Z.shiftl_mul_pow2 by lia. f_equal. f_equal. lia. }
  assert (2 ^ 59 ≤ m' < 2 ^ 960) as Hm'b.
  { rewrite Hm'. assert (0 < 2 ^ (- e')) as Hp by (apply pow2_pos; lia).
    assert (2 ^ (- e') ≤ 2 ^ 59) as Hp' by (apply Z.pow_le_mono_r; lia).
    assert (2 ^ 960 = 2 ^ 900 * 2 ^ 59 * 2) as -> by reflexivity.
    split; [|set (A := 2 ^ 900) in *; set (B := 2 ^ 59) in *;
             set (C := 2 ^ (- e')) in *; clearbody A B C; nia].
    destruct (Z.le_gt_cases 60 d1) as [Hbig|Hsmall].
    - assert (2 ^ 59 ≤ 2 ^ (d1 - 1)) by (apply Z.pow_le_mono_r; lia).
      set (A := 2 ^ 59) in *. set (B := 2 ^ (d1 - 1)) in *.
      set (C := 2 ^ (- e')) in *. clearbody A B C. nia.
    - replace (- e') with (60 - d1) by (unfold e'; lia).
      replace 59 with (d1 - 1 + (60 - d1)) at 1 by lia.
      rewrite Z.pow_add_r by lia.
      assert (0 < 2 ^ (60 - d1)) by (apply pow2_pos; lia).
      set (A := 2 ^ (d1 - 1)) in *. set (C := 2 ^ (60 - d1)) in *.
      clearbody A C. nia. }
  clearbody m'.
  pose proof (Z_div_mod m' 100 eq_refl) as Hdiv.
  destruct (Z.div_eucl m' 100) as [q r]. destruct Hdiv as [Hqr Hr].
  assert (2 ^ 52 ≤ q) as Hq.
  { change (2 ^ 59) with (2 ^ 52 * 128) in Hm'b. lia. }
  destruct q as [|qp|qp]; try lia.
  pose proof (digits2_pos_bounds qp) as Hdq.
  set (dq := Zpos (digits2_pos qp)) in *.
  assert (53 ≤ dq ≤ 960) as Hdqb.
  { assert (1 ≤ dq) by (subst dq; lia). clearbody dq. split.
    - destruct (Z.le_gt_cases 53 dq) as [|Hlt]; [done|].
      assert (2 ^ dq ≤ 2 ^ 52) by (apply Z.pow_le_mono_r; lia). lia.
    - destruct (Z.le_gt_cases dq 960) as [|Hgt]; [done|].
      assert (2 ^ 960 ≤ 2 ^ (dq - 1)) by (apply Z.pow_le_mono_r; lia).
      set (A := 2 ^ 960) in *. set (B := 2 ^ (dq - 1)) in *.
      clearbody A B. lia. }
  destruct (binary_round_aux_normal s qp e' (new_location 100 r) m' 100)
    as (m2 & e2 & Heq & He2 & Hb); try (fold dq; lia).
  { rewrite Hqr. apply new_location_100_rep; lia. }
  exists m2, e2. split_and!; [done|lia|].
  assert (m' * 2 ^ (e' + 1074) = Zpos k * 2 ^ 1074) as HN.
  { rewrite Hm', <- Z.mul_assoc, <- Z.pow_add_r by lia. f_equal. f_equal. lia. }
  rewrite HN in Hb. lia.
Qed.

(** Rounding to hundredths: a number within less than half a hundredth of
    [K / 100] is rounded to [K]. *)
Lemma nearest_hundredths_snap (m : positive) (e K : Z) :
  -1074 ≤ e →
  2 * Z.abs (100 * (Zpos m * 2 ^ (e + 1074)) - K * 2 ^ 1074) < 2 ^ 1074 →
  Float.nearest_hundredths m e = K.
Proof.
  intros He Hnear. unfold Float.nearest_hundredths.
  assert (0 < 2 ^ (e + 1074)) as HQ by (apply pow2_pos; lia).
  destruct e as [|p|p].
  - rewrite Z.pow_0_r. change (0 + 1074) with 1074 in *.
    set (P := 2 ^ 1074) in *. clearbody P. nia.
  - replace (Zpos p + 1074) with (1074 + Zpos p) in * by lia.
    rewrite Z.pow_add_r in * by lia.
    assert (0 < 2 ^ Zpos p) by (by apply pow2_pos).
    set (P := 2 ^ 1074) in *. set (T := 2 ^ Zpos p) in *. clearbody P T.
    nia.
  - assert (2 ^ 1074 = 2 ^ Zpos p * 2 ^ (Zneg p + 1074)) as HP.
    { rewrite <- Z.pow_add_r by lia. f_equal. lia. }
    rewrite HP in Hnear.
    assert (0 < 2 ^ Zpos p) as Hd by (by apply pow2_pos).
    set (Q := 2 ^ (Zneg p + 1074)) in *. set (d := 2 ^ Zpos p) in *.
    clearbody Q d.
    assert (2 * Z.abs (100 * Zpos m - K * d) < d) as Hn by nia.
    clear Hnear HP HQ.
    pose proof (Z.div_mod (100 * Zpos m) d ltac:(lia)) as Hdm.
    pose proof (Z.mod_pos_bound (100 * Zpos m) d Hd) as Hr.
    set (n := 100 * Zpos m) in *. clearbody n.
    set (q := n / d) in *. set (r := n mod d) in *. clearbody q r.
    assert (K = q ∨ K = q + 1) as HK by nia.
    destruct (Z.compare_spec (2 * r) d) as [Heq|Hlt|Hgt].
    + exfalso. destruct HK as [->| ->]; nia.
    + destruct HK as [->| ->]; [done|]. nia.
    + destruct HK as [->| ->]; [|done]. nia.
Qed.

Lemma round2_snap (x : float) (K : Z) :
  small x →
  2 * Z.abs (100 * scaled x - K * 2 ^ 1074) < 2 ^ 1074 →
  ∃ s0, Float.round2 x = cents_signed K s0.
Proof.
  intros Hx Hnear. assert (0 < 2 ^ 1074) as HP by (by apply pow2_pos).
  destruct x as [s|s| |s m e]; try done; simpl in *.
  - exists s. assert (K = 0) as -> by lia. done.
  - assert (0 < 2 ^ (e + 1074)) as HQ by (apply pow2_pos; lia).
    exists s. destruct s; simpl in Hnear.
    + rewrite (nearest_hundredths_snap m e (- K)); [|done|].
      * destruct K as [|p|p]; simpl; try done.
        exfalso. set (Q := 2 ^ (e + 1074)) in *. set (P := 2 ^ 1074) in *.
        clearbody P Q. nia.
      * set (Q := 2 ^ (e + 1074)) in *. set (P := 2 ^ 1074) in *.
        clearbody P Q. lia.
    + rewrite (nearest_hundredths_snap m e K); [|done|done].
      destruct K as [|p|p]; simpl; try done.
      exfalso. set (Q := 2 ^ (e + 1074)) in *. set (P := 2 ^ 1074) in *.
      clearbody P Q. nia.
Qed.

Lemma approx_cents_signed (K : Z) (s0 : bool) :
  Z.abs K < 2 ^ 900 → approx (cents_signed K s0) K (Z.abs K).
Proof.
  intros HK. assert (0 < 2 ^ 1074) as HP by (by apply pow2_pos).
  destruct K as [|p|p]; simpl.
  - split; [done|]. simpl. lia.
  - destruct (of_ratio_100_bound false p) as (m & e & -> & He & Hb); [lia|].
    split; [done|]. simpl.
    set (P := 2 ^ 1074) in *. set (Q := 2 ^ (e + 1074)) in *.
    clearbody P Q. lia.
  - destruct (of_ratio_100_bound true p) as (m & e & -> & He & Hb); [lia|].
    split; [done|]. simpl. change (Z.neg p) with (- Zpos p).
    set (P := 2 ^ 1074) in *. set (Q := 2 ^ (e + 1074)) in *.
    clearbody P Q. lia.
Qed.

Lemma abs_mul_pos (a P : Z) : 0 < P → Z.abs a * P = Z.abs (a * P).
Proof. intros HP. rewrite Z.abs_mul, (Z.abs_eq P); lia. Qed.

(** Errors add up: each operation adds the size of its result, in units
    of [2^-53] hundredths, and one unit. *)
Lemma approx_add (x y : float) (K1 K2 c1 c2 : Z) :
  approx x K1 c1 → approx y K2 c2 →
  c1 + c2 ≤ 2 ^ 53 → Z.abs (K1 + K2) ≤ 2 ^ 60 →
  approx (Float.add x y) (K1 + K2) (c1 + c2 + Z.abs (K1 + K2) + 1).
Proof.
  intros [Hx Hbx] [Hy Hby] Hc HK. unfold approx.
  pose proof (add_bound x y Hx Hy) as Hadd.
  assert (0 < 2 ^ 1074) as HP by (by apply pow2_pos).
  assert ((2 ^ 60 + 1) * 2 ^ 1074 < 100 * 2 ^ 2000) as Hbig by reflexivity.
  set (P := 2 ^ 1074) in *. set (B := 2 ^ 2000) in *. clearbody P B.
  change (2 ^ 53) with 9007199254740992 in *.
  change (2 ^ 60) with 1152921504606846976 in *.
  pose proof (abs_mul_pos (K1 + K2) P HP) as Habs.
  assert ((c1 + c2) * P ≤ 9007199254740992 * P) as HcP by nia.
  assert (Z.abs (K1 + K2) * P ≤ 1152921504606846976 * P) as HKP by nia.
  assert (100 * Z.abs (scaled x + scaled y) ≤ (Z.abs (K1 + K2) + 1) * P)
    as HS by lia.
  destruct Hadd as [Hr Hbr]; [lia|].
  split; [done|]. lia.
Qed.

Lemma approx_sub (x y : float) (K1 K2 c1 c2 : Z) :
  approx x K1 c1 → approx y K2 c2 →
  c1 + c2 ≤ 2 ^ 53 → Z.abs (K1 - K2) ≤ 2 ^ 60 →
  approx (Float.sub x y) (K1 - K2) (c1 + c2 + Z.abs (K1 - K2) + 1).
Proof.
  intros [Hx Hbx] [Hy Hby] Hc HK. unfold approx.
  pose proof (sub_bound x y Hx Hy) as Hsub.
  assert (0 < 2 ^ 1074) as HP by (by apply pow2_pos).
  assert ((2 ^ 60 + 1) * 2 ^ 1074 < 100 * 2 ^ 2000) as Hbig by reflexivity.
  set (P := 2 ^ 1074) in *. set (B := 2 ^ 2000) in *. clearbody P B.
  change (2 ^ 53) with 9007199254740992 in *.
  change (2 ^ 60) with 1152921504606846976 in *.
  assert ((c1 + c2) * P ≤ 9007199254740992 * P) as HcP by nia.
  pose proof (abs_mul_pos (K1 - K2) P HP) as Habs.
  assert (Z.abs (K1 - K2) * P ≤ 1152921504606846976 * P) as HKP by nia.
  assert (100 * Z.abs (scaled x - scaled y) ≤ (Z.abs (K1 - K2) + 1) * P)
    as HS by lia.
  destruct Hsub as [Hr Hbr]; [lia|].
  split; [done|]. lia.
Qed.

Lemma approx_round2 (x : float) (K c : Z) :
  approx x K c → c < 2 ^ 52 → ∃ s0, Float.round2 x = cents_signed K s0.
Proof.
  intros [Hx Hb] Hc. apply round2_snap; [done|].
  assert (0 < 2 ^ 1074) as HP by (by apply pow2_pos).
  set (P := 2 ^ 1074) in *. clearbody P.
  change (2 ^ 53) with 9007199254740992 in *.
  change (2 ^ 52) with 4503599627370496 in *.
  assert (c * P < 4503599627370496 * P) as HcP by nia.
  lia.
Qed.

(** ** Helper lemmas *)

Lemma ledger_eta (self : Ledger) :
  {| data_file := data_file self; transactions := transactions self;
     _next_id := _next_id self |} = self.
Proof. by destruct self. Qed.

Lemma filter_all {A} (P : A → Prop) `{∀ x, Decision (P x)} (l : list A) :
  Forall P l → filter P l = l.
Proof.
  induction 1 as [|x l Hx _ IH]; [done|].
  by rewrite filter_cons_True, IH.
Qed.

Lemma filter_length_lt_iff {A} (P : A → Prop) `{∀ x, Decision (P x)}
    (l : list A) :
  (length (filter P l) < length l)%nat ↔ ∃ x, x ∈ l ∧ ¬ P x.
Proof.
  induction l as [|x l IH].
  - split; [simpl; lia|]. intros (y & Hy & _). by apply elem_of_nil in Hy.
  - pose proof (length_filter P l) as Hle.
    destruct (decide (P x)) as [Hx|Hx].
    + rewrite filter_cons_True by done. simpl. split.
      * intros Hlt. destruct (proj1 IH) as (y & Hy & HPy); [lia|].
        exists y. split; [by right|done].
      * intros (y & Hy & HPy). apply elem_of_cons in Hy as [->|Hy]; [done|].
        assert (length (filter P l) < length l)%nat; [|lia].
        apply IH. eauto.
    + rewrite filter_cons_False by done. simpl. split; [|lia].
      intros _. exists x. split; [by left|done].
Qed.

(** ** Deleting *)

(** C4: deleting an id that no transaction carries returns [False], leaves
    the ledger (the transaction sequence, [_next_id]) and the files as they
    were, and prints that the id was not found. *)
Theorem delete_transaction_not_found (tx_id : Z) (self : Ledger) (w : World) :
  tx_id ∉ map id (transactions self) →
  delete_transaction tx_id self w
  = (false, self, say (TransactionNotFound tx_id) w).
Proof.
  intros Hnot. unfold delete_transaction.
  assert (filter (λ t, id t ≠ tx_id) (transactions self) = transactions self)
    as Hsame.
  { apply filter_all, Forall_forall. intros t Ht Heq. apply Hnot.
    rewrite <- Heq. apply list_elem_of_In, in_map, list_elem_of_In, Ht. }
  rewrite Hsame. unfold with_transactions. rewrite ledger_eta.
  by rewrite Nat.ltb_irrefl.
Qed.

Lemma delete_transaction_not_found_witness :
  let self := {| data_file := "ledger_data.json";
                 transactions :=
                   [ {| id := 1; date := "2024-03-01 09:00:00";
                        type := "income"; category := "Salary";
                        amount := Float.cents 100000;
                        description := "March pay" |} ];
                 _next_id := 2 |} in
  delete_transaction 7 self empty_world
  = (false, self, say (TransactionNotFound 7) empty_world).
Proof.
  intros self. apply (delete_transaction_not_found 7 self empty_world).
  simpl. intros Hin. apply elem_of_cons in Hin as [?|Hin]; [lia|].
  by apply elem_of_nil in Hin.
Defined.

(** C9: one call of [delete_transaction] removes every transaction that
    carries the id, keeps all the others in their order, leaves [_next_id]
    alone, and returns [True] exactly when some transaction carried the id. *)
Theorem delete_transaction_removes_all (tx_id : Z) (self : Ledger) (w : World) :
  let '(removed, self', _) := delete_transaction tx_id self w in
  (transactions self' = filter (λ t, id t ≠ tx_id) (transactions self)
   ∧ (tx_id ∉ map id (transactions self'))
   ∧ (∀ t, t ∈ transactions self' ↔ t ∈ transactions self ∧ id t ≠ tx_id)
   ∧ _next_id self' = _next_id self
   ∧ (removed = true ↔ ∃ t, t ∈ transactions self ∧ id t = tx_id)).
Proof.
  unfold delete_transaction. simpl.
  set (l' := filter (λ t, id t ≠ tx_id) (transactions self)).
  assert (tx_id ∉ map id l') as Hgone.
  { intros Hin. apply list_elem_of_In, in_map_iff in Hin as (t & Heq & Hin).
    apply list_elem_of_In, list_elem_of_filter in Hin as [Hne _]. done. }
  assert (∀ t, t ∈ l' ↔ t ∈ transactions self ∧ id t ≠ tx_id) as Hmem.
  { intros t. unfold l'. rewrite list_elem_of_filter. tauto. }
  assert ((length l' <? length (transactions self))%nat = true
          ↔ ∃ t, t ∈ transactions self ∧ id t = tx_id) as Hret.
  { rewrite Nat.ltb_lt. unfold l'. rewrite filter_length_lt_iff.
    split; intros (t & Ht & Hid); exists t; split; try done.
    - by destruct (decide (id t = tx_id)).
    - by intros Hne. }
  destruct (length l' <? length (transactions self))%nat eqn:Hlt; simpl.
  - split_and!; try done; try (split; [intros _; by apply Hret|done]).
  - split_and!; try done;
      try (split; [done|]; intros Hex; by apply Hret in Hex).
Qed.

(** An import is not checked for unique ids: after importing a file with
    two transactions of id 3, one call of [delete_transaction] removes
    both. *)
Example delete_transaction_duplicates :
  let tx i c := {| id := i; date := "d"; type := "expense"; category := c;
                   amount := Float.cents 100; description := "none" |} in
  let w := {| files := {[ "other.json"%string :=
                            Document (transactions_to_json
                                        [tx 3 "a"; tx 5 "b"; tx 3 "c"]) ]};
              unwritable := ∅; console := [] |} in
  let ids (st : Ledger * World) := map id (transactions st.1) in
  ids <$> run [Import "other.json"] (fresh_state.1, w) = Some [3; 5; 3]
  ∧ ids <$> run [Import "other.json"; Delete 3] (fresh_state.1, w)
    = Some [5].
Proof. vm_compute. done. Qed.

(** ** Balance and summary count income and expense only *)

Lemma balance_loop_app b l1 l2 :
  balance_loop b (l1 ++ l2) = balance_loop (balance_loop b l1) l2.
Proof.
  revert b. induction l1 as [|t l1 IH]; intros b; simpl; [done|].
  destruct (String.eqb (type t) "income"); [apply IH|].
  destruct (String.eqb (type t) "expense"); apply IH.
Qed.

Lemma summary_loop_app s l1 l2 :
  summary_loop s (l1 ++ l2) = summary_loop (summary_loop s l1) l2.
Proof.
  revert s. induction l1 as [|t l1 IH]; intros s; simpl; [done|].
  destruct (String.eqb (type t) "income"); [apply IH|].
  destruct (String.eqb (type t) "expense"); apply IH.
Qed.

Lemma not_counted_eqb t :
  ¬ counted t →
  String.eqb (type t) "income" = false ∧ String.eqb (type t) "expense" = false.
Proof.
  unfold counted. intros Hn. split; apply String.eqb_neq; tauto.
Qed.

Lemma balance_loop_counted b l :
  balance_loop b l = balance_loop b (filter counted l).
Proof.
  revert b. induction l as [|t l IH]; intros b; [done|].
  destruct (decide (counted t)) as [Hc|Hc].
  - rewrite filter_cons_True by done. simpl.
    destruct (String.eqb (type t) "income"); [apply IH|].
    destruct (String.eqb (type t) "expense"); apply IH.
  - rewrite filter_cons_False by done. simpl.
    destruct (not_counted_eqb t Hc) as [-> ->]. apply IH.
Qed.

Lemma summary_loop_counted s l :
  summary_loop s l = summary_loop s (filter counted l).
Proof.
  revert s. induction l as [|t l IH]; intros s; [done|].
  destruct (decide (counted t)) as [Hc|Hc].
  - rewrite filter_cons_True by done. simpl.
    destruct (String.eqb (type t) "income"); [apply IH|].
    destruct (String.eqb (type t) "expense"); apply IH.
  - rewrite filter_cons_False by done. simpl.
    destruct (not_counted_eqb t Hc) as [-> ->]. apply IH.
Qed.

(** C10: the balance and the summary of a ledger are those of its
    transactions of type ["income"] or ["expense"]; a transaction of any
    other type, wherever it stands in the sequence, changes neither the
    balance nor the two totals. *)
Theorem other_types_not_counted (self : Ledger) :
  (calculate_balance self
   = calculate_balance
       (with_transactions self (filter counted (transactions self)))
   ∧ generate_summary self
     = generate_summary
         (with_transactions self (filter counted (transactions self))))
  ∧ (∀ l1 t l2,
       transactions self = l1 ++ t :: l2 →
       type t ≠ "income"%string → type t ≠ "expense"%string →
       calculate_balance self
       = calculate_balance (with_transactions self (l1 ++ l2))
       ∧ generate_summary self
         = generate_summary (with_transactions self (l1 ++ l2))).
Proof.
  unfold calculate_balance, generate_summary. simpl. split.
  - by rewrite <- balance_loop_counted, <- summary_loop_counted.
  - intros l1 t l2 -> Hi He.
    assert (¬ counted t) as Hc by (unfold counted; tauto).
    destruct (not_counted_eqb t Hc) as [Hi' He'].
    rewrite !balance_loop_app, !summary_loop_app. simpl.
    by rewrite Hi', He'.
Qed.

Lemma other_types_not_counted_witness :
  let tx ty k := {| id := 1; date := "d"; type := ty; category := "c";
                    amount := Float.cents k; description := "none" |} in
  let self l := {| data_file := "ledger_data.json"; transactions := l;
                   _next_id := 4 |} in
  calculate_balance
    (self [tx "income" 5000; tx "transfer" 999; tx "expense" 1250])
  = calculate_balance (self [tx "income" 5000; tx "expense" 1250])
  ∧ generate_summary
      (self [tx "income" 5000; tx "transfer" 999; tx "expense" 1250])
    = generate_summary (self [tx "income" 5000; tx "expense" 1250]).
Proof.
  intros tx self.
  apply (proj2 (other_types_not_counted
                  (self [tx "income" 5000; tx "transfer" 999;
                         tx "expense" 1250]))
               [tx "income" 5000] (tx "transfer" 999) [tx "expense" 1250]).
  - reflexivity.
  - simpl. discriminate.
  - simpl. discriminate.
Defined.

(** ** Adding *)

Lemma positive_not_rejected (a : float) :
  Float.ltb Float.zero a = true → Float.leb a Float.zero = false.
Proof. by destruct a as [[]|[]| |[] m e]. Qed.

(** C7: [add_transaction] appends one transaction, whose id is the current
    [_next_id] and whose amount is the given amount rounded to two decimals,
    and increments [_next_id]; [handle_add] passes a positive amount on to
    it, and on an amount [<= 0] leaves the ledger and the files as they
    were. *)
Theorem add_transaction_appends (now tx_type category : string)
    (amount : float) (description : string) (self : Ledger) (w : World) :
  (let '(self', _) :=
     add_transaction now tx_type category amount description self w in
   transactions self'
   = transactions self
     ++ [ {| id := _next_id self; date := now; type := tx_type;
             category := category; amount := Float.round2 amount;
             description := description |} ]
   ∧ _next_id self' = _next_id self + 1)
  ∧ (Float.ltb Float.zero amount = true →
     handle_add now tx_type category amount description self w
     = add_transaction now tx_type category amount description self w)
  ∧ (Float.leb amount Float.zero = true →
     handle_add now tx_type category amount description self w
     = (self, say AmountRejected w)).
Proof.
  split_and!.
  - done.
  - intros Hpos. unfold handle_add. by rewrite positive_not_rejected.
  - intros Hneg. unfold handle_add. by rewrite Hneg.
Qed.

Lemma add_transaction_appends_witness :
  let self := {| data_file := "ledger_data.json"; transactions := [];
                 _next_id := 1 |} in
  handle_add "2024-03-01 09:00:00" "income" "Salary" (Float.cents 100000)
             "March pay" self empty_world
  = add_transaction "2024-03-01 09:00:00" "income" "Salary"
                    (Float.cents 100000) "March pay" self empty_world
  ∧ handle_add "2024-03-01 09:00:00" "income" "Salary"
               (Float.sub Float.zero (Float.cents 500)) "refund" self
               empty_world
    = (self, say AmountRejected empty_world).
Proof.
  intros self. split.
  - apply (add_transaction_appends "2024-03-01 09:00:00" "income" "Salary"
             (Float.cents 100000) "March pay" self empty_world).
    reflexivity.
  - apply (add_transaction_appends "2024-03-01 09:00:00" "income" "Salary"
             (Float.sub Float.zero (Float.cents 500)) "refund" self
             empty_world).
    reflexivity.
Defined.

(** ** Categories *)

(** C8: [add_transaction] stores the category as it is given, and the
    category filter of [handle_view] shows the transactions whose stored
    category and the queried one are equal once both are lower-cased, these
    and no others, in the order of the ledger. *)
Theorem category_filter_case_insensitive (lower : string → string)
    (filter_choice answer : string) (ledger : Ledger) (w : World) :
  (∀ now tx_type cat amount description,
     let '(ledger', _) :=
       add_transaction now tx_type cat amount description ledger w in
     category <$> last (transactions ledger') = Some cat)
  ∧ (lower filter_choice = "category"%string →
     handle_view lower filter_choice answer ledger w
     = display_transactions
         (category_filter lower answer (transactions ledger))
         (CategoryTransactions (lower answer)) w)
  ∧ (∀ t, t ∈ category_filter lower answer (transactions ledger)
          ↔ t ∈ transactions ledger
            ∧ lower (category t) = lower answer)
  ∧ category_filter lower answer (transactions ledger)
    `sublist_of` transactions ledger.
Proof.
  split_and!.
  - intros. simpl. by rewrite last_snoc.
  - intros Hc. unfold handle_view. by rewrite Hc.
  - intros t. unfold category_filter. by rewrite list_elem_of_filter, (comm and).
  - apply sublist_filter.
Qed.

Lemma category_filter_case_insensitive_witness :
  let tx i c := {| id := i; date := "d"; type := "expense"; category := c;
                   amount := Float.cents 100; description := "none" |} in
  let ledger := {| data_file := "ledger_data.json";
                   transactions := [tx 1 "Groceries"; tx 2 "Rent";
                                    tx 3 "GROCERIES"];
                   _next_id := 4 |} in
  handle_view lower_ascii "Category" "groceries" ledger empty_world
  = say (TransactionTable (CategoryTransactions "groceries")
           [tx 1 "Groceries"; tx 3 "GROCERIES"]) empty_world.
Proof.
  intros tx ledger.
  rewrite (proj1 (proj2 (category_filter_case_insensitive
                           lower_ascii "Category" "groceries" ledger
                           empty_world))).
  - reflexivity.
  - reflexivity.
Defined.

(** ** Import and export *)

Lemma transaction_of_to_json t :
  transaction_of_json (transaction_to_json t) = Some t.
Proof. by destruct t. Qed.

Lemma transactions_of_to_json l :
  transactions_of_json (transactions_to_json l) = Some l.
Proof.
  unfold transactions_of_json, transactions_to_json.
  apply mapM_Some. induction l as [|t l IH]; simpl; constructor; [|done].
  apply transaction_of_to_json.
Qed.

Lemma transactions_to_json_dicts l :
  is_list_of_dicts (transactions_to_json l) = true.
Proof. simpl. apply forallb_forall. intros j Hin. apply in_map_iff in Hin as (t & <- & _). done. Qed.



(** C5, amended: after an export to a path that can be written, an import
    from that path gives back the transaction sequence the ledger had: the
    same transactions in the same order. *)
Theorem export_import_round_trip (filename : string) (self : Ledger)
    (w : World) :
  filename ∉ unwritable w →
  ∃ self' w',
    import_data filename self (export_data filename self w) = Some (self', w')
    ∧ transactions self' = transactions self.
Proof.
  intros Hw. unfold export_data, write_file.
  rewrite decide_False by done.
  unfold import_data. simpl. rewrite lookup_insert_eq.
  rewrite transactions_to_json_dicts, transactions_of_to_json. simpl.
  eauto.
Qed.

Lemma export_import_round_trip_witness :
  let tx i ty c k := {| id := i; date := "d"; type := ty; category := c;
                        amount := Float.cents k; description := "none" |} in
  let self := {| data_file := "ledger_data.json";
                 transactions := [tx 1 "income" "Salary" 100000;
                                  tx 2 "expense" "Groceries" 4550];
                 _next_id := 3 |} in
  ∃ self' w',
    import_data "export.json" self (export_data "export.json" self empty_world)
    = Some (self', w')
    ∧ transactions self' = transactions self.
Proof.
  intros tx self.
  apply (export_import_round_trip "export.json" self empty_world).
  apply not_elem_of_empty.
Defined.

(** C5, as stated, fails.  The path of the export holds an earlier list (one
    transaction, of id 9) and cannot be written.  [export_data] catches the
    [IOError], says that it could not write and returns; the file is as it
    was, and [import_data] replaces the two transactions of the ledger by
    the one of the file. *)
Lemma failed_export_then_import_replaces :
  let tx i ty c k := {| id := i; date := "d"; type := ty; category := c;
                        amount := Float.cents k; description := "none" |} in
  let self := {| data_file := "ledger_data.json";
                 transactions := [tx 1 "income" "Salary" 100000;
                                  tx 2 "expense" "Groceries" 4550];
                 _next_id := 3 |} in
  let w := {| files := {[ "export.json"%string :=
                            Document (transactions_to_json
                                        [tx 9 "expense" "Rent" 80000]) ]};
              unwritable := {[ "export.json"%string ]};
              console := [] |} in
  export_data "export.json" self w = say ExportFailed w
  ∧ (λ st : Ledger * World,
       (transactions st.1, _next_id st.1, console st.2))
    <$> import_data "export.json" self (export_data "export.json" self w)
    = Some ([tx 9 "expense" "Rent" 80000], 10,
            [ExportFailed; Imported "export.json"]).
Proof.
  intros tx self w. split; vm_compute; reflexivity.
Qed.

(** ** Identifiers *)

Lemma fold_left_max_ge (xs : list Z) (x : Z) :
  x ≤ fold_left Z.max xs x ∧ Forall (λ y, y ≤ fold_left Z.max xs x) xs.
Proof.
  revert x. induction xs as [|y xs IH]; intros x; simpl.
  - split; [lia|constructor].
  - destruct (IH (Z.max x y)) as [H1 H2]. split; [lia|].
    constructor; [lia|done].
Qed.

Lemma py_max_ge (d : Z) (xs : list Z) : Forall (λ y, y ≤ py_max d xs) xs.
Proof.
  destruct xs as [|x xs]; [constructor|]. simpl.
  destruct (fold_left_max_ge xs x). by constructor.
Qed.

Lemma ids_below_recomputed (l : list Transaction) (f : string) :
  ids_below {| data_file := f; transactions := l;
               _next_id := py_max 0 (map id l) + 1 |}.
Proof.
  unfold ids_below. simpl. pose proof (py_max_ge 0 (map id l)) as H.
  rewrite Forall_map in H. eapply Forall_impl; [exact H|].
  simpl. intros. lia.
Qed.

Lemma init_ids_below f w st : __init__ f w = Some st → ids_below st.1.
Proof.
  unfold __init__, _load_transactions. simpl. intros H.
  destruct (files w !! f) as [[v|err|err]|]; simplify_option_eq;
    apply ids_below_recomputed.
Qed.

Lemma delete_result tx_id self w :
  (handle_delete tx_id self w).1
  = with_transactions self (filter (λ t, id t ≠ tx_id) (transactions self)).
Proof.
  unfold handle_delete, delete_transaction.
  by destruct (_ <? _)%nat.
Qed.

(** One command keeps the ids below the counter; unless it is an import,
    it succeeds and does not lower the counter. *)
Lemma exec_ids_below c st st' :
  exec c st = Some st' → ids_below st.1 → ids_below st'.1.
Proof.
  destruct st as [self w]. unfold ids_below.
  destruct c as [now ty cat a d|tx_id|f|f]; simpl.
  - intros [= <-] H. simpl. apply Forall_app. split.
    + eapply Forall_impl; [exact H|]. simpl. intros. lia.
    + repeat constructor. simpl. lia.
  - intros [= <-] H. rewrite delete_result. simpl.
    rewrite Forall_forall in H. apply Forall_forall. intros t Ht.
    apply list_elem_of_filter in Ht as [_ Ht]. by apply H.
  - by intros [= <-].
  - unfold import_data. intros H Hb.
    destruct (files w !! f) as [[v|err|err]|]; simplify_option_eq; try done.
    destruct (is_list_of_dicts v); simplify_option_eq; try done.
    apply (ids_below_recomputed _ (data_file self)).
Qed.

Lemma exec_no_import c st :
  no_import c →
  ∃ st', exec c st = Some st' ∧ _next_id st.1 ≤ _next_id st'.1.
Proof.
  destruct st as [self w].
  destruct c as [now ty cat a d|tx_id|f|f]; simpl; intros Hc; try done.
  - eexists. split; [done|]. simpl. lia.
  - eexists. split; [done|]. rewrite delete_result. simpl. lia.
  - eexists. split; [done|]. simpl. lia.
Qed.

Lemma run_app cs1 cs2 st :
  run (cs1 ++ cs2) st = run cs1 st ≫= run cs2.
Proof.
  revert st. induction cs1 as [|c cs1 IH]; intros st; simpl; [done|].
  destruct (exec c st) as [st'|]; simpl; [apply IH|done].
Qed.

Lemma run_ids_below cs st st' :
  run cs st = Some st' → ids_below st.1 → ids_below st'.1.
Proof.
  revert st. induction cs as [|c cs IH]; intros st; simpl.
  - by intros [= <-].
  - destruct (exec c st) as [st1|] eqn:Hc; simpl; [|done].
    intros Hrun Hb. eapply IH; [done|]. by eapply exec_ids_below.
Qed.

Lemma reachable_ids_below st : reachable st → ids_below st.1.
Proof.
  intros (f & w0 & st0 & cs & Hinit & Hrun).
  eapply run_ids_below; [done|]. by eapply init_ids_below.
Qed.

Lemma run_no_import cs st :
  Forall no_import cs →
  ∃ st', run cs st = Some st' ∧ _next_id st.1 ≤ _next_id st'.1.
Proof.
  intros Hcs. revert st.
  induction Hcs as [|c cs Hc _ IH]; intros st; simpl.
  - exists st. split; [done|lia].
  - destruct (exec_no_import c st Hc) as (st1 & -> & Hle). simpl.
    destruct (IH st1) as (st' & -> & Hle'). exists st'. split; [done|lia].
Qed.




Lemma fresh_state_reachable : reachable fresh_state.
Proof.
  exists "ledger_data.json"%string, empty_world, fresh_state, [].
  split; reflexivity.
Qed.



(** C3, as stated, fails: a first process adds two transactions (ids 1 and
    2) and deletes the second; a second process, constructed from the file
    the first one left, adds a transaction and gives it the id 2 again. *)
Lemma reload_reuses_deleted_id :
  let ids (st : Ledger * World) := map id (transactions st.1) in
  let first_adds : option (Ledger * World) :=
    __init__ "ledger_data.json" empty_world
    ≫= run [ Add "2024-03-01 09:00:00" "income" "Salary"
                 (Float.cents 100000) "March pay";
             Add "2024-03-02 18:30:00" "expense" "Groceries"
                 (Float.cents 4550) "Weekly shop" ] in
  let first_process : option (Ledger * World) :=
    first_adds ≫= run [Delete 2] in
  let second_process : option (Ledger * World) :=
    (first_process
     ≫= (λ st : Ledger * World, __init__ "ledger_data.json" st.2))
    ≫= run [ Add "2024-03-03 12:00:00" "expense" "Rent"
                 (Float.cents 80000) "March rent" ] in
  ids <$> first_adds = Some [1; 2]
  ∧ ids <$> first_process = Some [1]
  ∧ ids <$> second_process = Some [1; 2]
  ∧ (λ st : Ledger * World, description <$> last (transactions st.1))
    <$> second_process
    = Some (Some "March rent"%string).
Proof. vm_compute. done. Qed.

(** C3, amended: within one process and without an import, ids are not
    reused.  After any commands other than import, run from a state the
    program can be in, the id [add_transaction] assigns is greater than the
    id of every transaction the ledger held at any earlier point of the
    run, deleted since or not. *)
Theorem ids_not_reused_without_reload (st : Ledger * World)
    (cs : list command) (now tx_type cat : string) (a : float)
    (d : string) :
  reachable st → Forall no_import cs →
  ∃ st1 new,
    run cs st = Some st1
    ∧ transactions (add_transaction now tx_type cat a d st1.1 st1.2).1
      = transactions st1.1 ++ [new]
    ∧ ∀ cs0 cs2 st0 t,
        cs = cs0 ++ cs2 → run cs0 st = Some st0 →
        t ∈ transactions st0.1 → id t < id new.
Proof.
  intros Hreach Hcs.
  destruct (run_no_import cs st Hcs) as (st1 & Hrun & _).
  exists st1, {| id := _next_id st1.1; date := now; type := tx_type;
                 category := cat; amount := Float.round2 a;
                 description := d |}.
  split_and!; [done|done|].
  intros cs0 cs2 st0 t -> Hrun0 Ht. simpl.
  rewrite run_app, Hrun0 in Hrun. simpl in Hrun.
  apply Forall_app in Hcs as [_ Hcs2].
  destruct (run_no_import cs2 st0 Hcs2) as (st1' & Hrun2 & Hle).
  rewrite Hrun in Hrun2. injection Hrun2 as <-.
  assert (ids_below st0.1) as Hb.
  { eapply run_ids_below; [exact Hrun0|]. by apply reachable_ids_below. }
  unfold ids_below in Hb. rewrite Forall_forall in Hb.
  apply Hb in Ht. lia.
Qed.

Lemma ids_not_reused_without_reload_witness :
  let cs := [ Add "2024-03-01 09:00:00" "income" "Salary"
                  (Float.cents 100000) "March pay";
              Add "2024-03-02 18:30:00" "expense" "Groceries"
                  (Float.cents 4550) "Weekly shop";
              Delete 2 ] in
  ∃ st1 new,
    run cs fresh_state = Some st1
    ∧ transactions
        (add_transaction "2024-03-03 12:00:00" "expense" "Rent"
           (Float.cents 80000) "March rent" st1.1 st1.2).1
      = transactions st1.1 ++ [new]
    ∧ ∀ cs0 cs2 st0 t,
        cs = cs0 ++ cs2 → run cs0 fresh_state = Some st0 →
        t ∈ transactions st0.1 → id t < id new.
Proof.
  intros cs.
  apply (ids_not_reused_without_reload fresh_state cs).
  - exists "ledger_data.json"%string, empty_world, fresh_state, [].
    split; reflexivity.
  - repeat constructor.
Defined.

(** ** Balance and summary in binary64 *)

Lemma cents_totals l ks :
  in_cents l ks →
  0 ≤ income_cents l ks ∧ 0 ≤ expense_cents l ks
  ∧ income_cents l ks + expense_cents l ks ≤ total ks.
Proof.
  induction 1 as [|t k l ks [Hk _] _ IH]; simpl; [lia|].
  destruct (String.eqb (type t) "income"); [lia|].
  destruct (String.eqb (type t) "expense"); lia.
Qed.

Lemma total_nonneg l ks : in_cents l ks → 0 ≤ total ks.
Proof. induction 1 as [|t k l ks [Hk _] _ IH]; simpl; lia. Qed.

Lemma cents_is_cents_signed (k : Z) :
  0 ≤ k → Float.cents k = cents_signed k false.
Proof. by destruct k. Qed.

Lemma approx_cents (k : Z) : 0 ≤ k < 2 ^ 900 → approx (Float.cents k) k k.
Proof.
  intros Hk. rewrite cents_is_cents_signed by lia.
  replace k with (Z.abs k) at 3 by lia. apply approx_cents_signed. lia.
Qed.

Lemma approx_weaken x K c c' : approx x K c → c ≤ c' → approx x K c'.
Proof.
  intros [Hx Hb] Hc. split; [done|].
  assert (0 < 2 ^ 1074) as HP by (by apply pow2_pos).
  set (P := 2 ^ 1074) in *. clearbody P. nia.
Qed.

(** The running balance stays within [2 * S + 1] units of [2^-53]
    hundredths per transaction of the exact one, [S] bounding the totals. *)
Lemma balance_loop_approx (S : Z) l ks :
  in_cents l ks → S ≤ 2 ^ 59 →
  ∀ b K c,
    approx b K c → Z.abs K + total ks ≤ S →
    c + Z.of_nat (length ks) * (2 * S + 1) ≤ 2 ^ 53 →
    approx (balance_loop b l)
           (K + income_cents l ks - expense_cents l ks)
           (c + Z.of_nat (length ks) * (2 * S + 1)).
Proof.
  intros Hl HS. induction Hl as [|t k l ks [Hk Ha] Hl IH];
    intros b K c Hb HK Hc.
  - simpl. eapply approx_weaken; [|reflexivity].
    replace (K + 0 - 0) with K by lia.
    eapply approx_weaken; [exact Hb|]. simpl. lia.
  - pose proof (total_nonneg _ _ Hl) as Htot.
    simpl in HK. rewrite length_cons, Nat2Z.inj_succ in *.
    change (2 ^ 59) with 576460752303423488 in *.
    change (2 ^ 53) with 9007199254740992 in *.
    assert (approx (Float.cents k) k k) as Hcents.
    { apply approx_cents. split; [done|].
      assert (2 ^ 59 < 2 ^ 900) by (apply Z.pow_lt_mono_r; lia).
      change (2 ^ 59) with 576460752303423488 in *. lia. }
    set (n := Z.of_nat (length ks)) in *.
    assert (0 ≤ n) as Hn by (unfold n; lia). clearbody n.
    simpl. rewrite Ha.
    destruct (String.eqb (type t) "income").
    + eapply approx_weaken.
      * replace (K + (k + income_cents l ks) - (0 + expense_cents l ks))
          with (K + k + income_cents l ks - expense_cents l ks) by lia.
        apply (IH _ (K + k) (c + k + Z.abs (K + k) + 1)).
        -- apply approx_add; try done.
           ++ change (2 ^ 53) with 9007199254740992. nia.
           ++ change (2 ^ 60) with 1152921504606846976. lia.
        -- lia.
        -- nia.
      * nia.
    + destruct (String.eqb (type t) "expense").
      * eapply approx_weaken.
        -- replace (K + (0 + income_cents l ks) - (k + expense_cents l ks))
             with (K - k + income_cents l ks - expense_cents l ks) by lia.
           apply (IH _ (K - k) (c + k + Z.abs (K - k) + 1)).
           ++ apply approx_sub; try done.
              ** change (2 ^ 53) with 9007199254740992. nia.
              ** change (2 ^ 60) with 1152921504606846976. lia.
           ++ lia.
           ++ nia.
        -- nia.
      * eapply approx_weaken.
        -- replace (K + (0 + income_cents l ks) - (0 + expense_cents l ks))
             with (K + income_cents l ks - expense_cents l ks) by lia.
           apply (IH _ K c); [done|lia|nia].
        -- nia.
Qed.

Lemma summary_loop_approx (S : Z) l ks :
  in_cents l ks → S ≤ 2 ^ 59 →
  ∀ s KI KE cI cE,
    approx (income s) KI cI → approx (expense s) KE cE →
    Z.abs KI + total ks ≤ S → Z.abs KE + total ks ≤ S →
    cI + Z.of_nat (length ks) * (2 * S + 1) ≤ 2 ^ 53 →
    cE + Z.of_nat (length ks) * (2 * S + 1) ≤ 2 ^ 53 →
    approx (income (summary_loop s l)) (KI + income_cents l ks)
           (cI + Z.of_nat (length ks) * (2 * S + 1))
    ∧ approx (expense (summary_loop s l)) (KE + expense_cents l ks)
             (cE + Z.of_nat (length ks) * (2 * S + 1)).
Proof.
  intros Hl HS. induction Hl as [|t k l ks [Hk Ha] Hl IH];
    intros s KI KE cI cE HI HE HKI HKE HcI HcE.
  - simpl. rewrite !Z.add_0_r. done.
  - pose proof (total_nonneg _ _ Hl) as Htot.
    simpl in HKI, HKE. rewrite length_cons, Nat2Z.inj_succ in *.
    change (2 ^ 59) with 576460752303423488 in *.
    change (2 ^ 53) with 9007199254740992 in *.
    assert (approx (Float.cents k) k k) as Hcents.
    { apply approx_cents. split; [done|].
      assert (2 ^ 59 < 2 ^ 900) by (apply Z.pow_lt_mono_r; lia).
      change (2 ^ 59) with 576460752303423488 in *. lia. }
    set (n := Z.of_nat (length ks)) in *.
    assert (0 ≤ n) as Hn by (unfold n; lia). clearbody n.
    simpl. rewrite Ha.
    destruct (String.eqb (type t) "income").
    + destruct (IH {| income := Float.add (income s) (Float.cents k);
                      expense := expense s |}
                  (KI + k) KE (cI + k + Z.abs (KI + k) + 1) cE)
        as [HI' HE']; simpl; try done; try lia; try nia.
      { apply approx_add; try done.
        - change (2 ^ 53) with 9007199254740992. nia.
        - change (2 ^ 60) with 1152921504606846976. lia. }
      split.
      * replace (KI + (k + income_cents l ks))
          with (KI + k + income_cents l ks) by lia.
        eapply approx_weaken; [exact HI'|nia].
      * eapply approx_weaken; [exact HE'|nia].
    + destruct (String.eqb (type t) "expense").
      * destruct (IH {| income := income s;
                        expense := Float.add (expense s) (Float.cents k) |}
                    KI (KE + k) cI (cE + k + Z.abs (KE + k) + 1))
          as [HI' HE']; simpl; try done; try lia; try nia.
        { apply approx_add; try done.
          - change (2 ^ 53) with 9007199254740992. nia.
          - change (2 ^ 60) with 1152921504606846976. lia. }
        split.
        -- eapply approx_weaken; [exact HI'|nia].
        -- replace (KE + (k + expense_cents l ks))
             with (KE + k + expense_cents l ks) by lia.
           eapply approx_weaken; [exact HE'|nia].
      * destruct (IH s KI KE cI cE) as [HI' HE']; try done; try lia; try nia.
        split; (eapply approx_weaken; [eassumption|nia]).
Qed.

Lemma approx_zero : approx Float.zero 0 0.
Proof. split; [done|]. simpl. lia. Qed.

Lemma eqb_cents_signed (K : Z) (s1 s2 : bool) :
  Z.abs K < 2 ^ 900 →
  Float.eqb (cents_signed K s1) (cents_signed K s2) = true.
Proof.
  intros HK. destruct K as [|p|p]; simpl.
  - done.
  - destruct (of_ratio_100_bound false p) as (m & e & -> & _); [lia|].
    unfold Float.eqb, SFeqb. simpl. rewrite Z.compare_refl.
    change (Pos.compare_cont Eq m m) with (m ?= m)%positive.
    by rewrite Pos.compare_refl.
  - destruct (of_ratio_100_bound true p) as (m & e & -> & _); [lia|].
    unfold Float.eqb, SFeqb. simpl. rewrite Z.compare_refl.
    change (Pos.compare_cont Eq m m) with (m ?= m)%positive.
    by rewrite Pos.compare_refl.
Qed.

(** What the two reports are, for a ledger in hundredths that is not too
    large: the floats for the exact balance and the exact totals. *)
Lemma reports_in_cents (self : Ledger) (ks : list Z) :
  in_cents (transactions self) ks →
  (Z.of_nat (length ks) + 1) * (2 * total ks + 1) < 2 ^ 52 →
  let KI := income_cents (transactions self) ks in
  let KE := expense_cents (transactions self) ks in
  ∃ sB sI sE sD,
    calculate_balance self = cents_signed (KI - KE) sB
    ∧ income (generate_summary self) = cents_signed KI sI
    ∧ expense (generate_summary self) = cents_signed KE sE
    ∧ Float.round2 (Float.sub (income (generate_summary self))
                              (expense (generate_summary self)))
      = cents_signed (KI - KE) sD.
Proof.
  intros Hl Hsize KI KE.
  pose proof (total_nonneg _ _ Hl) as Htot.
  pose proof (cents_totals _ _ Hl) as (HKI & HKE & Hsum).
  fold KI KE in HKI, HKE, Hsum.
  set (S := total ks) in *. set (n := Z.of_nat (length ks)) in *.
  assert (0 ≤ n) as Hn by (unfold n; lia).
  change (2 ^ 52) with 4503599627370496 in Hsize.
  assert (S ≤ 2 ^ 59) as HS
    by (change (2 ^ 59) with 576460752303423488; nia).
  assert (n * (2 * S + 1) < 4503599627370496) as Hc by nia.
  assert (2 * S + 1 < 4503599627370496) as Hc1 by nia.
  pose proof (balance_loop_approx S _ _ Hl HS Float.zero 0 0 approx_zero)
    as HB.
  pose proof (summary_loop_approx S _ _ Hl HS
                {| income := Float.zero; expense := Float.zero |} 0 0 0 0
                approx_zero approx_zero) as HIE.
  fold n in HB, HIE. fold KI KE in HB. fold KI KE in HIE.
  change (2 ^ 53) with 9007199254740992 in *.
  destruct HB as [HBs HBb]; [lia|lia|].
  destruct HIE as [HI HE]; [lia|lia|lia|lia|].
  rewrite !Z.add_0_l in *.
  destruct (approx_round2 _ _ _ (conj HBs HBb)) as [sB HrB].
  { change (2 ^ 52) with 4503599627370496. lia. }
  destruct (approx_round2 _ _ _ HI) as [sI HrI].
  { change (2 ^ 52) with 4503599627370496. lia. }
  destruct (approx_round2 _ _ _ HE) as [sE HrE].
  { change (2 ^ 52) with 4503599627370496. lia. }
  assert (2 ^ 59 < 2 ^ 900) as Hbig by (apply Z.pow_lt_mono_r; lia).
  change (2 ^ 59) with 576460752303423488 in *.
  assert (approx (Float.sub (cents_signed KI sI) (cents_signed KE sE))
                 (KI - KE)
                 (Z.abs KI + Z.abs KE + Z.abs (KI - KE) + 1)) as HD.
  { apply approx_sub.
    - apply approx_cents_signed. lia.
    - apply approx_cents_signed. lia.
    - change (2 ^ 53) with 9007199254740992. lia.
    - change (2 ^ 60) with 1152921504606846976. lia. }
  destruct (approx_round2 _ _ _ HD) as [sD HrD].
  { change (2 ^ 52) with 4503599627370496. lia. }
  exists sB, sI, sE, sD. unfold calculate_balance, generate_summary. simpl.
  by rewrite HrB, HrI, HrE, HrD.
Qed.

(** C1, amended: for a ledger whose amounts are floats written with two
    decimals, as [add_transaction] stores them, and which is small enough
    for the binary64 error to stay below half a hundredth (number of
    transactions plus one, times twice the sum of the amounts in hundredths
    plus one, below [2^52]), [calculate_balance()] is equal ([==]) to the
    difference of the two summary totals rounded to two decimals. *)
Theorem balance_equals_rounded_difference (self : Ledger) (ks : list Z) :
  in_cents (transactions self) ks →
  (Z.of_nat (length ks) + 1) * (2 * total ks + 1) < 2 ^ 52 →
  Float.eqb (calculate_balance self)
            (Float.round2 (Float.sub (income (generate_summary self))
                                     (expense (generate_summary self))))
  = true.
Proof.
  intros Hl Hsize.
  destruct (reports_in_cents self ks Hl Hsize)
    as (sB & sI & sE & sD & -> & _ & _ & ->).
  apply eqb_cents_signed.
  pose proof (total_nonneg _ _ Hl) as Htot.
  pose proof (cents_totals _ _ Hl) as (HKI & HKE & Hsum).
  assert (2 ^ 52 < 2 ^ 900) as Hbig by (apply Z.pow_lt_mono_r; lia).
  change (2 ^ 52) with 4503599627370496 in *.
  set (n := Z.of_nat (length ks)) in *.
  assert (0 ≤ n) as Hn by (unfold n; lia). nia.
Qed.

Lemma balance_equals_rounded_difference_witness :
  let tx i ty k := {| id := i; date := "d"; type := ty; category := "c";
                      amount := Float.cents k; description := "none" |} in
  let self := {| data_file := "ledger_data.json";
                 transactions := [tx 1 "income" 30; tx 2 "expense" 10];
                 _next_id := 3 |} in
  Float.eqb (calculate_balance self)
            (Float.round2 (Float.sub (income (generate_summary self))
                                     (expense (generate_summary self))))
  = true.
Proof.
  intros tx self.
  apply (balance_equals_rounded_difference self [30; 10]).
  - repeat constructor; simpl; lia.
  - reflexivity.
Defined.

(** C1, as stated, fails: after an income of 0.3 and an expense of 0.1 the
    balance is 0.2, the summary is 0.3 and 0.1, and the float difference
    [0.3 - 0.1] is 0.19999999999999998, which is not equal to 0.2. *)
Lemma balance_differs_from_summary_difference :
  let st :=
    run [ Add "2024-03-01 09:00:00" "income" "Sales" (Float.cents 30) "invoice";
          Add "2024-03-02 09:00:00" "expense" "Stamps" (Float.cents 10) "post" ]
        fresh_state in
  (λ st : Ledger * World, calculate_balance st.1) <$> st
  = Some (Float.cents 20)
  ∧ (λ st : Ledger * World, generate_summary st.1) <$> st
    = Some {| income := Float.cents 30; expense := Float.cents 10 |}
  ∧ Float.sub (Float.cents 30) (Float.cents 10)
    = S754_finite false 7205759403792793 (-55)
  ∧ Float.cents 20 = S754_finite false 7205759403792794 (-55)
  ∧ Float.eqb (Float.cents 20) (Float.sub (Float.cents 30) (Float.cents 10))
    = false.
Proof. vm_compute. done. Qed.

(** The size condition cannot be dropped: with amounts of 1e16 the balance
    (1e16 - 1e16 + 1.0 = 1.0) and the rounded difference of the totals
    ((1e16 + 1.0) - 1e16 = 0.0, as 1e16 + 1.0 == 1e16) differ. *)
Example large_ledger_differs :
  let tx i ty k := {| id := i; date := "d"; type := ty; category := "c";
                      amount := Float.cents k; description := "none" |} in
  let self := {| data_file := "ledger_data.json";
                 transactions := [ tx 1 "income" (10 ^ 18);
                                   tx 2 "expense" (10 ^ 18);
                                   tx 3 "income" 100 ];
                 _next_id := 4 |} in
  calculate_balance self = Float.cents 100
  ∧ Float.round2 (Float.sub (income (generate_summary self))
                            (expense (generate_summary self)))
    = Float.zero.
Proof. vm_compute. done. Qed.

(** The amounts [add_transaction] stores for positive finite inputs are
    floats written with two decimals, and deleting keeps them so: the
    ledgers of a session of adds and deletes are in hundredths. *)
Lemma round2_two_decimals (m : positive) (e : Z) :
  two_decimals (Float.round2 (S754_finite false m e)).
Proof.
  exists (Z.max 0 (Float.nearest_hundredths m e)). split; [lia|].
  simpl. by destruct (Float.nearest_hundredths m e).
Qed.

Lemma in_cents_exists (l : list Transaction) :
  Forall (λ t, two_decimals (amount t)) l ↔ ∃ ks, in_cents l ks.
Proof.
  split.
  - induction 1 as [|t l (k & Hk & Ha) _ (ks & IH)].
    + exists []. constructor.
    + exists (k :: ks). by constructor.
  - intros (ks & Hl). induction Hl as [|t k l ks [Hk Ha] _ IH];
      constructor; [by exists k|done].
Qed.

Lemma session_in_cents (cs : list command) (st st' : Ledger * World) :
  Forall accepted_add_or_delete cs →
  (∃ ks, in_cents (transactions st.1) ks) →
  run cs st = Some st' →
  ∃ ks, in_cents (transactions st'.1) ks.
Proof.
  intros Hcs. rewrite <- !in_cents_exists. revert st.
  induction Hcs as [|c cs Hc _ IH]; intros st Hst; simpl.
  - by intros [= <-].
  - destruct c as [now ty cat a d|tx_id|f|f]; try done; simpl.
    + destruct a as [| | |[] m e]; try done. apply IH. simpl.
      apply Forall_app. split; [done|]. constructor; [|constructor].
      apply round2_two_decimals.
    + apply IH. rewrite delete_result. simpl.
      rewrite Forall_forall in Hst. apply Forall_forall. intros t Ht.
      apply list_elem_of_filter in Ht as [_ Ht]. by apply Hst.
Qed.

(** ** The session of the specification

    Start empty; add an income of 1000.00: id 1, balance 1000.00; add an
    expense of 45.50: id 2, balance 954.50; delete 1: balance -45.50,
    summary 0.00 and 45.50. *)
Example specification_session :
  let report (st : Ledger * World) :=
    (map id (transactions st.1), calculate_balance st.1,
     generate_summary st.1) in
  let adds1 := [ Add "2024-03-01 09:00:00" "income" "Salary"
                     (Float.cents 100000) "March pay" ] in
  let adds2 := adds1 ++ [ Add "2024-03-02 18:30:00" "expense" "Groceries"
                              (Float.cents 4550) "Weekly shop" ] in
  report <$> run adds1 fresh_state
  = Some ([1], Float.cents 100000,
          {| income := Float.cents 100000; expense := Float.zero |})
  ∧ report <$> run adds2 fresh_state
    = Some ([1; 2], Float.cents 95450,
            {| income := Float.cents 100000; expense := Float.cents 4550 |})
  ∧ report <$> run (adds2 ++ [Delete 1]) fresh_state
    = Some ([2], Float.sub Float.zero (Float.cents 4550),
            {| income := Float.zero; expense := Float.cents 4550 |}).
Proof. vm_compute. done. Qed.

(** * Further properties of the ledger *)

(** ** Decoding *)

Lemma transaction_of_json_inv j t :
  transaction_of_json j = Some t → j = transaction_to_json t.
Proof.
  unfold transaction_of_json. intros H.
  repeat case_match; simplify_eq.
  match goal with e : _ = transaction_keys |- _ =>
    injection e as -> -> -> -> -> -> end.
  reflexivity.
Qed.

Lemma transactions_of_json_inv v l :
  transactions_of_json v = Some l → v = transactions_to_json l.
Proof.
  destruct v as [| | | | |items|]; try done. simpl. intros H.
  apply mapM_Some in H. unfold transactions_to_json. f_equal.
  induction H as [|j t items l Hj _ IH]; simpl; [done|].
  by rewrite (transaction_of_json_inv _ _ Hj), IH.
Qed.

(** ** Memory and disk *)

Lemma save_writable (self : Ledger) (w : World) :
  data_file self ∉ unwritable w →
  _save_transactions self w
  = {| files := <[data_file self :=
                    Document (transactions_to_json (transactions self))]>
                  (files w);
       unwritable := unwritable w; console := console w |}.
Proof.
  intros Hw. unfold _save_transactions, write_file.
  by rewrite decide_False.
Qed.

Lemma filter_not_shorter {A} (P : A → Prop) `{∀ x, Decision (P x)}
    (l : list A) :
  (length (filter P l) <? length l)%nat = false → filter P l = l.
Proof.
  intros Hlen. apply Nat.ltb_ge in Hlen. apply filter_all, Forall_forall.
  intros x Hx. destruct (decide (P x)) as [|Hn]; [done|].
  assert (length (filter P l) < length l)%nat; [|lia].
  apply filter_length_lt_iff. eauto.
Qed.

(** A command changes neither the name of the data file nor which paths
    can be written. *)
Lemma exec_frame c st st' :
  exec c st = Some st' →
  data_file st'.1 = data_file st.1 ∧ unwritable st'.2 = unwritable st.2.
Proof.
  destruct st as [self w].
  destruct c as [now ty cat a d|tx_id|f|f]; simpl.
  - intros [= <-]. simpl. unfold _save_transactions, write_file.
    by case_decide.
  - intros [= <-]. unfold handle_delete, delete_transaction.
    destruct (_ <? _)%nat; simpl; [|done].
    unfold _save_transactions, write_file. by case_decide.
  - intros [= <-]. simpl. unfold export_data, write_file. by case_decide.
  - unfold import_data. intros H.
    destruct (files w !! f) as [[v|err|err]|]; simplify_option_eq; try done.
    destruct (is_list_of_dicts v); simplify_option_eq; try done.
    unfold _save_transactions, write_file. by case_decide.
Qed.

Lemma exec_on_disk c st st' :
  data_file st.1 ∉ unwritable st.2 → on_disk st →
  exec c st = Some st' → on_disk st'.
Proof.
  destruct st as [self w]. unfold on_disk. simpl. intros Hw Hdisk.
  destruct c as [now ty cat a d|tx_id|f|f]; simpl.
  - intros [= <-]. simpl. rewrite save_writable by done. simpl.
    by rewrite lookup_insert_eq.
  - intros [= <-]. unfold handle_delete, delete_transaction.
    destruct (_ <? _)%nat eqn:Hlen; simpl.
    + rewrite save_writable by done. simpl. by rewrite lookup_insert_eq.
    + by rewrite (filter_not_shorter _ _ Hlen).
  - intros [= <-]. simpl. unfold export_data, write_file.
    case_decide; simpl; [done|].
    destruct (decide (f = data_file self)) as [->|Hne].
    + by rewrite lookup_insert_eq.
    + by rewrite lookup_insert_ne.
  - unfold import_data. intros H.
    destruct (files w !! f) as [[v|err|err]|]; simplify_option_eq; try done.
    destruct (is_list_of_dicts v); simplify_option_eq; try done.
    rewrite save_writable by done. simpl. by rewrite lookup_insert_eq.
Qed.

Lemma run_on_disk cs st st' :
  data_file st.1 ∉ unwritable st.2 → on_disk st →
  run cs st = Some st' →
  on_disk st' ∧ data_file st'.1 = data_file st.1
  ∧ unwritable st'.2 = unwritable st.2.
Proof.
  revert st. induction cs as [|c cs IH]; intros st Hw Hdisk; simpl.
  - by intros [= <-].
  - destruct (exec c st) as [st1|] eqn:Hc; simpl; [|done].
    destruct (exec_frame _ _ _ Hc) as [Hf Hu]. intros Hrun.
    destruct (IH st1) as (H1 & H2 & H3); try done.
    + by rewrite Hf, Hu.
    + by eapply exec_on_disk.
    + split_and!; [done|congruence|congruence].
Qed.

Lemma init_on_disk f w st :
  __init__ f w = Some st →
  on_disk st ∧ data_file st.1 = f ∧ files st.2 = files w
  ∧ unwritable st.2 = unwritable w.
Proof.
  unfold __init__, _load_transactions, on_disk. simpl. intros H.
  destruct (files w !! f) as [[v|err|err]|] eqn:Hf; simplify_option_eq;
    rewrite ?Hf; try done.
  split_and!; try done. by apply transactions_of_json_inv.
Qed.

Lemma on_disk_reload st :
  on_disk st →
  ∃ st', __init__ (data_file st.1) st.2 = Some st'
         ∧ transactions st'.1 = transactions st.1.
Proof.
  destruct st as [self w]. unfold on_disk, __init__, _load_transactions.
  simpl. intros Hdisk.
  destruct (files w !! data_file self) as [[v|err|err]|]; simpl.
  - subst v. rewrite transactions_of_to_json. simpl. eauto.
  - rewrite Hdisk. eauto.
  - done.
  - rewrite Hdisk. eauto.
Qed.

(** Files that hold transactions only stay so, and on them every command
    is within the ledgers of records. *)
Lemma transactions_only_insert (path : string) (l : list Transaction)
    (w : World) (fs : gmap string content) :
  transactions_only w →
  fs = <[path := Document (transactions_to_json l)]> (files w) →
  ∀ w', files w' = fs → transactions_only w'.
Proof.
  intros Hw -> w' Hfs f v. rewrite Hfs.
  destruct (decide (f = path)) as [->|Hne].
  - rewrite lookup_insert_eq. intros [= <-] _.
    rewrite transactions_of_to_json. eauto.
  - rewrite lookup_insert_ne by done. apply Hw.
Qed.

Lemma save_transactions_only (self : Ledger) (w : World) :
  transactions_only w → transactions_only (_save_transactions self w).
Proof.
  intros Hw. unfold _save_transactions, write_file. case_decide; [done|].
  by eapply transactions_only_insert.
Qed.

Lemma exec_transactions_only c st :
  transactions_only st.2 →
  ∃ st', exec c st = Some st' ∧ transactions_only st'.2.
Proof.
  destruct st as [self w]. simpl. intros Hw.
  destruct c as [now ty cat a d|tx_id|f|f]; simpl.
  - eexists. split; [done|]. simpl. by apply save_transactions_only.
  - eexists. split; [done|]. unfold handle_delete, delete_transaction.
    destruct (_ <? _)%nat; simpl; [|done]. by apply save_transactions_only.
  - eexists. split; [done|]. simpl. unfold export_data, write_file.
    case_decide; simpl; [done|]. by eapply transactions_only_insert.
  - unfold import_data.
    destruct (files w !! f) as [[v|err|err]|] eqn:Hf; try by eauto.
    destruct (is_list_of_dicts v) eqn:Hv; [|by eauto].
    destruct (Hw f v Hf Hv) as [l ->]. simpl.
    eexists. split; [done|]. simpl. by apply save_transactions_only.
Qed.

Lemma run_transactions_only cs st :
  transactions_only st.2 → ∃ st', run cs st = Some st'.
Proof.
  revert st. induction cs as [|c cs IH]; intros st Hw; simpl; [eauto|].
  destruct (exec_transactions_only c st Hw) as (st1 & -> & Hw1). simpl.
  by apply IH.
Qed.

(** X1: what is in memory is what is on disk.  A ledger of transactions
    is constructed from a data file that can be written, in a world where
    every file that holds a list of dictionaries holds transactions.  Then
    any commands (adds, deletes, exports and imports, failed or not) run to
    their end, and a process constructed afterwards from the same data file
    starts with the transaction sequence the first one ended with. *)
Theorem restart_restores_transactions (f : string) (w0 : World)
    (st0 : Ledger * World) (cs : list command) :
  __init__ f w0 = Some st0 → f ∉ unwritable w0 → transactions_only w0 →
  ∃ st st',
    run cs st0 = Some st
    ∧ __init__ f st.2 = Some st'
    ∧ transactions st'.1 = transactions st.1.
Proof.
  intros Hinit Hw Hfiles.
  destruct (init_on_disk _ _ _ Hinit) as (Hdisk & Hf & Hfs & Hu).
  destruct (run_transactions_only cs st0) as [st Hrun].
  { intros g v. rewrite Hfs. apply Hfiles. }
  destruct (run_on_disk cs st0 st) as (Hdisk' & Hf' & _); try done.
  { by rewrite Hf, Hu. }
  destruct (on_disk_reload st Hdisk') as (st' & Hre & Htx).
  exists st, st'. split_and!; [done| |done]. by rewrite <- Hf, <- Hf'.
Qed.

Lemma restart_restores_transactions_witness :
  let tx i := {| id := i; date := "d"; type := "income"; category := "c";
                 amount := Float.cents 100; description := "none" |} in
  let w0 := {| files := {[ "other.json"%string :=
                             Document (transactions_to_json [tx 7; tx 3]) ]};
               unwritable := ∅; console := [] |} in
  let st0 := ({| data_file := "ledger_data.json"; transactions := [];
                 _next_id := 1 |}, say FreshLedger w0) in
  let cs := [ Add "2024-03-01 09:00:00" "income" "Salary"
                  (Float.cents 100000) "March pay";
              Import "other.json"; Import "missing.json";
              Add "2024-03-02 18:30:00" "expense" "Groceries"
                  (Float.cents 4550) "Weekly shop";
              Delete 7; Export "backup.json" ] in
  ∃ st st',
    run cs st0 = Some st
    ∧ __init__ "ledger_data.json" st.2 = Some st'
    ∧ transactions st'.1 = transactions st.1.
Proof.
  intros tx w0 st0 cs.
  apply (restart_restores_transactions "ledger_data.json" w0 st0 cs).
  - reflexivity.
  - apply not_elem_of_empty.
  - intros f v Hf _. simpl in Hf.
    apply lookup_singleton_Some in Hf as [_ [= <-]].
    rewrite transactions_of_to_json. eauto.
Defined.




(** X3: an exported file can serve as a data file.  After an export that
    succeeds, a ledger constructed from the target path has the exported
    transaction sequence, and a counter one above the largest id (1 for an
    empty sequence). *)
Theorem export_then_construct (filename : string) (self : Ledger)
    (w : World) :
  filename ∉ unwritable w →
  ∃ w',
    __init__ filename (export_data filename self w)
    = Some ({| data_file := filename; transactions := transactions self;
               _next_id := py_max 0 (map id (transactions self)) + 1 |}, w').
Proof.
  intros Hw. unfold export_data, write_file. rewrite decide_False by done.
  unfold __init__, _load_transactions. simpl. rewrite lookup_insert_eq.
  rewrite transactions_of_to_json. simpl. eauto.
Qed.

Lemma export_then_construct_witness :
  let tx i ty k := {| id := i; date := "d"; type := ty; category := "c";
                      amount := Float.cents k; description := "none" |} in
  let self := {| data_file := "ledger_data.json";
                 transactions := [tx 4 "income" 100000; tx 9 "expense" 4550];
                 _next_id := 12 |} in
  ∃ w',
    __init__ "backup.json" (export_data "backup.json" self empty_world)
    = Some ({| data_file := "backup.json";
               transactions := transactions self;
               _next_id := py_max 0 (map id (transactions self)) + 1 |}, w').
Proof.
  intros tx self.
  apply (export_then_construct "backup.json" self empty_world).
  apply not_elem_of_empty.
Defined.

(** X4: a successful import replaces the ledger.  When the source decodes
    to a list of transactions, [import_data] drops the transactions the
    ledger had and takes those of the file in their order, sets the counter
    one above the largest imported id (1 for an empty list), rewrites the
    data file with them when it can be written, and reports the import. *)
Theorem import_data_replaces (filename : string) (self : Ledger) (w : World)
    (v : json) (l : list Transaction) :
  files w !! filename = Some (Document v) →
  transactions_of_json v = Some l →
  ∃ w',
    import_data filename self w
    = Some ({| data_file := data_file self; transactions := l;
               _next_id := py_max 0 (map id l) + 1 |}, w')
    ∧ last (console w') = Some (Imported filename)
    ∧ (data_file self ∉ unwritable w →
       files w' = <[data_file self := Document v]> (files w)).
Proof.
  intros Hf Hv. pose proof (transactions_of_json_inv _ _ Hv) as ->.
  unfold import_data. rewrite Hf, transactions_to_json_dicts, Hv. simpl.
  eexists. split_and!; [done|..].
  - simpl. by rewrite last_snoc.
  - intros Hw. simpl. by rewrite save_writable.
Qed.

Lemma import_data_replaces_witness :
  let tx i ty k := {| id := i; date := "d"; type := ty; category := "c";
                      amount := Float.cents k; description := "none" |} in
  let l := [tx 7 "income" 5000; tx 3 "expense" 1250] in
  let self := {| data_file := "ledger_data.json";
                 transactions := [tx 1 "income" 100];
                 _next_id := 2 |} in
  let w := {| files := {[ "other.json"%string :=
                            Document (transactions_to_json l) ]};
              unwritable := ∅; console := [] |} in
  ∃ w',
    import_data "other.json" self w
    = Some ({| data_file := "ledger_data.json"; transactions := l;
               _next_id := 8 |}, w')
    ∧ last (console w') = Some (Imported "other.json")
    ∧ (data_file self ∉ unwritable w →
       files w'
       = <[data_file self := Document (transactions_to_json l)]> (files w)).
Proof.
  intros tx l self w.
  apply (import_data_replaces "other.json" self w (transactions_to_json l) l).
  - reflexivity.
  - reflexivity.
Defined.

(** X5: importing a file and exporting the ledger reproduces the file.
    When the source decodes to a list of transactions and the target can be
    written, the target holds after the export the JSON value the source
    holds. *)
Theorem import_then_export (source target : string) (self : Ledger)
    (w : World) (v : json) (l : list Transaction) :
  files w !! source = Some (Document v) →
  transactions_of_json v = Some l →
  target ∉ unwritable w →
  ∃ st,
    import_data source self w = Some st
    ∧ files (export_data target st.1 st.2) !! target = Some (Document v).
Proof.
  intros Hf Hv Hw. pose proof (transactions_of_json_inv _ _ Hv) as ->.
  unfold import_data. rewrite Hf, transactions_to_json_dicts, Hv. simpl.
  eexists. split; [done|]. simpl.
  unfold export_data, write_file.
  rewrite decide_False; [simpl; by rewrite lookup_insert_eq|].
  simpl. unfold _save_transactions, write_file. by case_decide.
Qed.

Lemma import_then_export_witness :
  let tx i ty k := {| id := i; date := "d"; type := ty; category := "c";
                      amount := Float.cents k; description := "none" |} in
  let v := transactions_to_json [tx 7 "income" 5000; tx 3 "transfer" 1250] in
  let w := {| files := {[ "other.json"%string := Document v ]};
              unwritable := ∅; console := [] |} in
  ∃ st,
    import_data "other.json" fresh_state.1 w = Some st
    ∧ files (export_data "copy.json" st.1 st.2) !! "copy.json"
      = Some (Document v).
Proof.
  intros tx v w.
  apply (import_then_export "other.json" "copy.json" fresh_state.1 w v
           [tx 7 "income" 5000; tx 3 "transfer" 1250]).
  - reflexivity.
  - reflexivity.
  - apply not_elem_of_empty.
Defined.

(** ** Adding and deleting together *)

Lemma filter_filter_same {A} (P : A → Prop) `{∀ x, Decision (P x)}
    (l : list A) :
  filter P (filter P l) = filter P l.
Proof.
  apply filter_all, Forall_forall. intros x Hx.
  by apply list_elem_of_filter in Hx as [? _].
Qed.

Lemma filter_swap {A} (P Q : A → Prop) `{∀ x, Decision (P x)}
    `{∀ x, Decision (Q x)} (l : list A) :
  filter P (filter Q l) = filter Q (filter P l).
Proof.
  induction l as [|x l IH]; [done|].
  destruct (decide (P x)), (decide (Q x));
    rewrite ?filter_cons_True, ?filter_cons_False by done;
    rewrite ?filter_cons_True, ?filter_cons_False by done;
    by rewrite IH.
Qed.

(** X6: deleting is idempotent.  Whatever a first [delete_transaction] of
    an id did, a second one of the same id finds nothing: it returns
    [False], prints that the id was not found and changes neither the
    ledger nor the files. *)
Theorem delete_transaction_twice (tx_id : Z) (self : Ledger) (w : World) :
  let '(_, self1, w1) := delete_transaction tx_id self w in
  delete_transaction tx_id self1 w1
  = (false, self1, say (TransactionNotFound tx_id) w1).
Proof.
  unfold delete_transaction at 1.
  set (l1 := filter (λ t, id t ≠ tx_id) (transactions self)).
  assert (∀ w1, delete_transaction tx_id (with_transactions self l1) w1
                = (false, with_transactions self l1,
                   say (TransactionNotFound tx_id) w1)) as Hsecond.
  { intros w1. unfold delete_transaction. simpl. unfold l1.
    rewrite filter_filter_same, Nat.ltb_irrefl. done. }
  simpl. destruct (_ <? _)%nat; apply Hsecond.
Qed.

(** X7: deletions commute.  Deleting two ids in either order ends with
    the same ledger: the same transaction sequence and the same counter. *)
Theorem delete_transaction_commute (a b : Z) (st : Ledger * World) :
  (λ st : Ledger * World, st.1) <$> run [Delete a; Delete b] st
  = (λ st : Ledger * World, st.1) <$> run [Delete b; Delete a] st.
Proof.
  destruct st as [self w]. simpl. rewrite !delete_result. simpl.
  unfold with_transactions. simpl. do 2 f_equal. apply filter_swap.
Qed.

(** X8: adding and then deleting the id just assigned gives back the
    transaction sequence, in a state where every id is below the counter;
    the counter stays advanced, so the id is not assigned again by the next
    add. *)
Theorem add_then_delete (now tx_type cat : string) (a : float) (d : string)
    (st : Ledger * World) :
  ids_below st.1 →
  let '(self1, w1) := add_transaction now tx_type cat a d st.1 st.2 in
  let '(removed, self2, _) := delete_transaction (_next_id st.1) self1 w1 in
  (removed = true
   ∧ transactions self2 = transactions st.1
   ∧ _next_id self2 = _next_id st.1 + 1).
Proof.
  intros Hreach.
  destruct st as [self w]. simpl in *. unfold delete_transaction. simpl.
  rewrite filter_app, filter_cons_False, filter_nil, app_nil_r
    by (simpl; intros Hne; by apply Hne).
  rewrite filter_all.
  - rewrite length_app. simpl.
    replace (_ <? _)%nat with true; [done|].
    symmetry. apply Nat.ltb_lt. lia.
  - eapply Forall_impl; [exact Hreach|]. simpl. intros. lia.
Qed.

Lemma add_then_delete_witness :
  let tx i := {| id := i; date := "d"; type := "income"; category := "c";
                 amount := Float.cents 100; description := "none" |} in
  let st := ({| data_file := "ledger_data.json";
                transactions := [tx 4; tx 9]; _next_id := 10 |},
             empty_world) in
  let '(self1, w1) :=
    add_transaction "2024-03-01 09:00:00" "income" "Salary"
                    (Float.cents 100000) "March pay" st.1 st.2 in
  let '(removed, self2, _) := delete_transaction (_next_id st.1) self1 w1 in
  (removed = true
   ∧ transactions self2 = transactions st.1
   ∧ _next_id self2 = _next_id st.1 + 1).
Proof.
  intros tx st.
  apply (add_then_delete "2024-03-01 09:00:00" "income" "Salary"
           (Float.cents 100000) "March pay" st).
  repeat constructor; simpl; lia.
Defined.

(** ** Unique ids *)

Lemma filter_NoDup_map {A B} (f : A → B) (P : A → Prop)
    `{∀ x, Decision (P x)} (l : list A) :
  NoDup (map f l) → NoDup (map f (filter P l)).
Proof.
  induction l as [|x l IH]; simpl; [done|].
  rewrite NoDup_cons. intros [Hx Hl].
  destruct (decide (P x)).
  - rewrite filter_cons_True by done. simpl. apply NoDup_cons.
    split; [|by apply IH]. intros Hin. apply Hx.
    apply list_elem_of_In, in_map_iff in Hin as (y & Hy & Hin).
    apply list_elem_of_In, list_elem_of_filter in Hin as [_ Hin].
    rewrite <- Hy. by apply list_elem_of_In, in_map, list_elem_of_In.
  - rewrite filter_cons_False by done. by apply IH.
Qed.

Lemma exec_unique_ids c st st' :
  no_import c → ids_below st.1 → NoDup (map id (transactions st.1)) →
  exec c st = Some st' → NoDup (map id (transactions st'.1)).
Proof.
  destruct st as [self w].
  destruct c as [now ty cat a d|tx_id|f|f]; simpl; try done.
  - intros _ Hb Hu [= <-]. simpl. rewrite map_app. simpl.
    apply NoDup_app. split_and!; [done| |apply NoDup_singleton].
    intros x Hx Hx'.
    apply elem_of_cons in Hx' as [->|Hx']; [|by apply elem_of_nil in Hx'].
    apply list_elem_of_In, in_map_iff in Hx as (t & Ht & Hin).
    unfold ids_below in Hb. rewrite Forall_forall in Hb.
    apply list_elem_of_In, Hb in Hin. lia.
  - intros _ _ Hu [= <-]. rewrite delete_result. simpl.
    by apply filter_NoDup_map.
  - by intros _ _ Hu [= <-].
Qed.

(** X9: ids stay unique.  If the ids of a ledger are pairwise distinct
    and below the counter, they are still so after any commands other than
    import; in particular the ids of a ledger that started without a file
    are always pairwise distinct. *)
Theorem unique_ids_preserved (cs : list command) (st st' : Ledger * World) :
  Forall no_import cs →
  ids_below st.1 → NoDup (map id (transactions st.1)) →
  run cs st = Some st' →
  ids_below st'.1 ∧ NoDup (map id (transactions st'.1)).
Proof.
  intros Hcs. revert st. induction Hcs as [|c cs Hc _ IH]; intros st Hb Hu.
  - simpl. by intros [= <-].
  - simpl. destruct (exec c st) as [st1|] eqn:Hex; simpl; [|done].
    apply IH.
    + by eapply exec_ids_below.
    + by eapply exec_unique_ids.
Qed.

Lemma unique_ids_preserved_witness :
  let cs := [ Add "2024-03-01 09:00:00" "income" "Salary"
                  (Float.cents 100000) "March pay";
              Delete 1;
              Add "2024-03-02 18:30:00" "expense" "Groceries"
                  (Float.cents 4550) "Weekly shop" ] in
  ∃ st', run cs fresh_state = Some st'
         ∧ ids_below st'.1 ∧ NoDup (map id (transactions st'.1)).
Proof.
  intros cs.
  destruct (run cs fresh_state) as [st'|] eqn:Hrun; [|discriminate Hrun].
  exists st'. split; [reflexivity|].
  apply (unique_ids_preserved cs fresh_state st').
  - repeat constructor.
  - constructor.
  - constructor.
  - exact Hrun.
Defined.

(** ** Construction *)

Lemma fold_left_max_in (xs : list Z) (x : Z) :
  fold_left Z.max xs x ∈ x :: xs.
Proof.
  revert x. induction xs as [|y xs IH]; intros x; simpl; [by left|].
  specialize (IH (Z.max x y)). apply elem_of_cons in IH as [IH|IH].
  - rewrite IH. destruct (Z.max_spec x y) as [[_ ->]|[_ ->]].
    + right. by left.
    + by left.
  - right. by right.
Qed.

(** X10: what construction gives.  [__init__] never writes a file; the
    ledger of transactions it builds has every id below its counter, a
    counter of 1 when it has no transaction and otherwise one above an id it
    holds.  When the data file is missing, or is a text the JSON decoder
    rejects ([JSONDecodeError]), construction succeeds with no transaction
    and says which of the two it met; when the file is no text
    ([UnicodeDecodeError], which [_load_transactions] does not catch), no
    ledger is constructed. *)
Theorem construction_counter (f : string) (w : World) :
  (∀ st, __init__ f w = Some st →
     data_file st.1 = f ∧ files st.2 = files w
     ∧ ids_below st.1
     ∧ (transactions st.1 = [] → _next_id st.1 = 1)
     ∧ (transactions st.1 ≠ [] →
        _next_id st.1 - 1 ∈ map id (transactions st.1)))
  ∧ (files w !! f = None →
     __init__ f w
     = Some ({| data_file := f; transactions := []; _next_id := 1 |},
             say FreshLedger w))
  ∧ (∀ err, files w !! f = Some (Corrupt err) →
     __init__ f w
     = Some ({| data_file := f; transactions := []; _next_id := 1 |},
             say LoadCorrupt w))
  ∧ (∀ err, files w !! f = Some (BadEncoding err) → __init__ f w = None).
Proof.
  split_and!.
  - intros st Hinit.
    assert (_next_id st.1 = py_max 0 (map id (transactions st.1)) + 1)
      as Hn.
    { unfold __init__, _load_transactions in Hinit. simpl in Hinit.
      destruct (files w !! f) as [[v|err|err]|]; by simplify_option_eq. }
    destruct (init_on_disk _ _ _ Hinit) as (_ & Hf & Hfiles & _).
    split_and!; try done; [by eapply init_ids_below|..].
    + intros Hnil. by rewrite Hn, Hnil.
    + rewrite Hn. intros Hne.
      destruct (transactions st.1) as [|t l]; [done|]. simpl.
      replace (fold_left Z.max (map id l) (id t) + 1 - 1)
        with (fold_left Z.max (map id l) (id t)) by lia.
      apply fold_left_max_in.
  - intros Hf. unfold __init__, _load_transactions. simpl. by rewrite Hf.
  - intros err Hf. unfold __init__, _load_transactions. simpl.
    by rewrite Hf.
  - intros err Hf. unfold __init__, _load_transactions. simpl.
    by rewrite Hf.
Qed.

Lemma construction_counter_witness :
  let tx i := {| id := i; date := "d"; type := "income"; category := "c";
                 amount := Float.cents 100; description := "none" |} in
  let w := {| files := {[ "ledger_data.json"%string :=
                            Document (transactions_to_json [tx 2; tx 9; tx 4]);
                          "broken.json"%string := Corrupt "Expecting value";
                          "photo.json"%string :=
                            BadEncoding "invalid start byte" ]};
              unwritable := ∅; console := [] |} in
  (∃ st, __init__ "ledger_data.json" w = Some st
         ∧ _next_id st.1 - 1 ∈ [2; 9; 4])
  ∧ __init__ "broken.json" w
    = Some ({| data_file := "broken.json"; transactions := [];
               _next_id := 1 |}, say LoadCorrupt w)
  ∧ __init__ "photo.json" w = None.
Proof.
  intros tx w. split.
  - destruct (__init__ "ledger_data.json" w) as [st|] eqn:Hinit;
      [|discriminate Hinit].
    exists st. split; [reflexivity|].
    destruct (proj1 (construction_counter "ledger_data.json" w) st Hinit)
      as (_ & _ & _ & _ & Hin).
    vm_compute in Hinit. injection Hinit as <-. apply Hin. discriminate.
  - split.
    + apply (proj1 (proj2 (proj2 (construction_counter "broken.json" w)))
               "Expecting value").
      reflexivity.
    + apply (proj2 (proj2 (proj2 (construction_counter "photo.json" w)))
               "invalid start byte").
      reflexivity.
Defined.

(** X11: a data file the JSON decoder rejects is replaced.  When
    [json.load] raises [JSONDecodeError] on the data file (an empty file, a
    text that is not JSON), construction starts an empty ledger, and the
    first [add_transaction] overwrites the file (if it can be written) with
    the one new transaction, of id 1. *)
Theorem corrupt_file_overwritten (f err now tx_type cat d : string)
    (a : float) (w : World) :
  files w !! f = Some (Corrupt err) → f ∉ unwritable w →
  ∃ st0,
    __init__ f w = Some st0
    ∧ files (add_transaction now tx_type cat a d st0.1 st0.2).2 !! f
      = Some (Document
                (transactions_to_json
                   [ {| id := 1; date := now; type := tx_type;
                        category := cat; amount := Float.round2 a;
                        description := d |} ])).
Proof.
  intros Hf Hw. unfold __init__, _load_transactions. simpl. rewrite Hf.
  simpl. eexists. split; [done|]. simpl.
  rewrite save_writable by done. simpl. by rewrite lookup_insert_eq.
Qed.

Lemma corrupt_file_overwritten_witness :
  let w := {| files := {[ "ledger_data.json"%string :=
                            Corrupt "Expecting value" ]};
              unwritable := ∅; console := [] |} in
  ∃ st0,
    __init__ "ledger_data.json" w = Some st0
    ∧ files (add_transaction "2024-03-01 09:00:00" "income" "Salary"
               (Float.cents 100000) "March pay" st0.1 st0.2).2
      !! "ledger_data.json"
      = Some (Document
                (transactions_to_json
                   [ {| id := 1; date := "2024-03-01 09:00:00";
                        type := "income"; category := "Salary";
                        amount := Float.round2 (Float.cents 100000);
                        description := "March pay" |} ])).
Proof.
  intros w.
  apply (corrupt_file_overwritten "ledger_data.json" "Expecting value"
           "2024-03-01 09:00:00" "income" "Salary" "March pay"
           (Float.cents 100000) w).
  - reflexivity.
  - apply not_elem_of_empty.
Defined.

(** ** Amounts and reports *)

(** X12: for a ledger whose amounts are floats written with two decimals
    and which is small enough ((n + 1) * (2 S + 1) < 2^52, n transactions
    of S hundredths in total), the reports carry no rounding error: the
    balance is the float for the exact balance in hundredths, and each
    total of the summary the float for the exact total (a zero may have
    either sign). *)
Theorem reports_are_exact_decimals (self : Ledger) (ks : list Z) :
  in_cents (transactions self) ks →
  (Z.of_nat (length ks) + 1) * (2 * total ks + 1) < 2 ^ 52 →
  let KI := income_cents (transactions self) ks in
  let KE := expense_cents (transactions self) ks in
  ∃ sB sI sE,
    calculate_balance self = cents_signed (KI - KE) sB
    ∧ income (generate_summary self) = cents_signed KI sI
    ∧ expense (generate_summary self) = cents_signed KE sE.
Proof.
  intros Hl Hsize KI KE.
  destruct (reports_in_cents self ks Hl Hsize)
    as (sB & sI & sE & _ & HB & HI & HE & _).
  by exists sB, sI, sE.
Qed.

Lemma reports_are_exact_decimals_witness :
  let tx i ty k := {| id := i; date := "d"; type := ty; category := "c";
                      amount := Float.cents k; description := "none" |} in
  let self := {| data_file := "ledger_data.json";
                 transactions := [tx 1 "income" 100000; tx 2 "expense" 4550;
                                  tx 3 "expense" 10; tx 4 "income" 20];
                 _next_id := 5 |} in
  ∃ sB sI sE,
    calculate_balance self = cents_signed 95460 sB
    ∧ income (generate_summary self) = cents_signed 100020 sI
    ∧ expense (generate_summary self) = cents_signed 4560 sE.
Proof.
  intros tx self.
  apply (reports_are_exact_decimals self [100000; 4550; 10; 20]).
  - repeat constructor; simpl; lia.
  - reflexivity.
Defined.

(** X13: an amount written with two decimals is stored as it is.  For
    [0 <= k < 2^52], rounding the float for [k / 100] to two decimals gives
    that float back, so [add_transaction] stores it unchanged; in
    particular rounding twice is rounding once on such amounts. *)
Theorem two_decimals_stored_unchanged (k : Z) (now tx_type cat d : string)
    (self : Ledger) (w : World) :
  0 ≤ k < 2 ^ 52 →
  Float.round2 (Float.cents k) = Float.cents k
  ∧ amount <$> last (transactions
                       (add_transaction now tx_type cat (Float.cents k) d
                                        self w).1)
    = Some (Float.cents k).
Proof.
  intros Hk.
  assert (Float.round2 (Float.cents k) = Float.cents k) as Hfix.
  { destruct (Z.eq_dec k 0) as [->|Hne]; [done|].
    assert (2 ^ 52 < 2 ^ 900) by (apply Z.pow_lt_mono_r; lia).
    destruct (approx_round2 (Float.cents k) k k) as [s0 Hr].
    - apply approx_cents. lia.
    - lia.
    - rewrite Hr. destruct k; try lia. done. }
  split; [done|]. simpl. rewrite last_snoc. simpl. by rewrite Hfix.
Qed.

Lemma two_decimals_stored_unchanged_witness :
  Float.round2 (Float.cents 4550) = Float.cents 4550
  ∧ amount <$> last (transactions
                       (add_transaction "2024-03-02 18:30:00" "expense"
                          "Groceries" (Float.cents 4550) "Weekly shop"
                          fresh_state.1 fresh_state.2).1)
    = Some (Float.cents 4550).
Proof.
  apply (two_decimals_stored_unchanged 4550 "2024-03-02 18:30:00" "expense"
           "Groceries" "Weekly shop" fresh_state.1 fresh_state.2).
  split; [lia|reflexivity].
Defined.

(** X14: what the guard of [handle_add] lets through.  The test
    [amount <= 0] is false exactly for NaN, for plus infinity and for the
    positive finite floats: for these [handle_add] calls
    [add_transaction], for every other amount it returns with the ledger
    and the files as they were. *)
Theorem handle_add_guard (now tx_type cat : string) (a : float) (d : string)
    (self : Ledger) (w : World) :
  (passes_guard a →
   handle_add now tx_type cat a d self w
   = add_transaction now tx_type cat a d self w)
  ∧ (¬ passes_guard a →
     handle_add now tx_type cat a d self w = (self, say AmountRejected w)).
Proof.
  unfold handle_add. destruct a as [[]|[]| |[] m e]; simpl; split; tauto.
Qed.

Lemma handle_add_guard_witness :
  handle_add "2024-03-01 09:00:00" "income" "Salary" S754_nan "March pay"
             fresh_state.1 fresh_state.2
  = add_transaction "2024-03-01 09:00:00" "income" "Salary" S754_nan
                    "March pay" fresh_state.1 fresh_state.2
  ∧ handle_add "2024-03-01 09:00:00" "income" "Salary" (S754_zero true)
               "March pay" fresh_state.1 fresh_state.2
    = (fresh_state.1, say AmountRejected fresh_state.2).
Proof.
  split.
  - apply (handle_add_guard "2024-03-01 09:00:00" "income" "Salary"
             S754_nan "March pay" fresh_state.1 fresh_state.2).
    exact I.
  - apply (handle_add_guard "2024-03-01 09:00:00" "income" "Salary"
             (S754_zero true) "March pay" fresh_state.1 fresh_state.2).
    simpl. tauto.
Defined.

Lemma add_nan_l y : Float.add S754_nan y = S754_nan.
Proof. by destruct y. Qed.
Lemma add_nan_r x : Float.add x S754_nan = S754_nan.
Proof. by destruct x as [[]|[]| |]. Qed.
Lemma sub_nan_l y : Float.sub S754_nan y = S754_nan.
Proof. by destruct y. Qed.
Lemma sub_nan_r x : Float.sub x S754_nan = S754_nan.
Proof. by destruct x as [[]|[]| |]. Qed.

Lemma balance_loop_nan l : balance_loop S754_nan l = S754_nan.
Proof.
  induction l as [|t l IH]; simpl; [done|].
  rewrite ?add_nan_l, ?sub_nan_l. by repeat case_match.
Qed.

Lemma summary_loop_nan_income s l :
  income s = S754_nan → income (summary_loop s l) = S754_nan.
Proof.
  revert s. induction l as [|t l IH]; intros s Hs; simpl; [done|].
  repeat case_match; apply IH; simpl; by rewrite ?Hs, ?add_nan_l.
Qed.

Lemma summary_loop_nan_expense s l :
  expense s = S754_nan → expense (summary_loop s l) = S754_nan.
Proof.
  revert s. induction l as [|t l IH]; intros s Hs; simpl; [done|].
  repeat case_match; apply IH; simpl; by rewrite ?Hs, ?add_nan_l.
Qed.

(** X15: a NaN amount spoils the reports.  If the ledger holds an income
    or an expense whose amount is NaN, [calculate_balance] is NaN whatever
    the other transactions are, and so is the total of that type in the
    summary. *)
Theorem nan_amount_spoils_reports (self : Ledger) (t : Transaction) :
  t ∈ transactions self → amount t = S754_nan →
  (type t = "income"%string →
   calculate_balance self = S754_nan
   ∧ income (generate_summary self) = S754_nan)
  ∧ (type t = "expense"%string →
     calculate_balance self = S754_nan
     ∧ expense (generate_summary self) = S754_nan).
Proof.
  intros Hin Ha. apply list_elem_of_split in Hin as (l1 & l2 & Hl).
  unfold calculate_balance, generate_summary. simpl. rewrite Hl.
  rewrite balance_loop_app, summary_loop_app. simpl. rewrite Ha.
  split; intros Hty; rewrite Hty; simpl.
  - rewrite add_nan_r, balance_loop_nan.
    rewrite summary_loop_nan_income; [done|]. simpl. apply add_nan_r.
  - rewrite sub_nan_r, balance_loop_nan.
    rewrite summary_loop_nan_expense; [done|]. simpl. apply add_nan_r.
Qed.

Lemma nan_amount_spoils_reports_witness :
  let tx i ty a := {| id := i; date := "d"; type := ty; category := "c";
                      amount := a; description := "none" |} in
  let self := {| data_file := "ledger_data.json";
                 transactions := [tx 1 "income" (Float.cents 100000);
                                  tx 2 "expense" S754_nan;
                                  tx 3 "income" (Float.cents 20)];
                 _next_id := 4 |} in
  calculate_balance self = S754_nan
  ∧ expense (generate_summary self) = S754_nan.
Proof.
  intros tx self.
  apply (nan_amount_spoils_reports self (tx 2 "expense" S754_nan)).
  - right. left.
  - reflexivity.
  - reflexivity.
Defined.

(** X16: without expenses the balance is the income total.  If no
    transaction has the type ["expense"], [calculate_balance] returns
    exactly the income total of [generate_summary], and the expense total
    is 0.0. *)
Theorem balance_without_expenses (self : Ledger) :
  Forall (λ t, type t ≠ "expense"%string) (transactions self) →
  calculate_balance self = income (generate_summary self)
  ∧ expense (generate_summary self) = Float.zero.
Proof.
  intros Hno. unfold calculate_balance, generate_summary. simpl.
  assert (∀ b e,
            balance_loop b (transactions self)
            = income (summary_loop {| income := b; expense := e |}
                                   (transactions self))
            ∧ expense (summary_loop {| income := b; expense := e |}
                                    (transactions self)) = e) as Hloop.
  { induction Hno as [|t l Ht _ IH]; intros b e; simpl; [done|].
    destruct (String.eqb (type t) "income"); [apply IH|].
    destruct (String.eqb_spec (type t) "expense"); [done|apply IH]. }
  destruct (Hloop Float.zero Float.zero) as [-> ->]. done.
Qed.

Lemma balance_without_expenses_witness :
  let tx i ty k := {| id := i; date := "d"; type := ty; category := "c";
                      amount := Float.cents k; description := "none" |} in
  let self := {| data_file := "ledger_data.json";
                 transactions := [tx 1 "income" 10; tx 2 "income" 20;
                                  tx 3 "transfer" 999];
                 _next_id := 4 |} in
  calculate_balance self = income (generate_summary self)
  ∧ expense (generate_summary self) = Float.zero.
Proof.
  intros tx self. apply (balance_without_expenses self).
  repeat constructor; simpl; discriminate.
Defined.

Lemma binary_round_aux_opp s m e l :
  binary_round_aux 53 1024 (negb s) m e l
  = SFopp (binary_round_aux 53 1024 s m e l).
Proof.
  unfold binary_round_aux.
  destruct (shr_fexp 53 1024 m e l) as [mrs' e'].
  destruct (shr_fexp 53 1024 _ e' loc_Exact) as [mrs'' e''].
  destruct (shr_m mrs''); [done| |done]. by destruct (_ <=? _).
Qed.

Lemma binary_round_opp s m e :
  binary_round 53 1024 (negb s) m e = SFopp (binary_round 53 1024 s m e).
Proof.
  unfold binary_round. destruct (shl_align m e _) as [mz ez].
  apply binary_round_aux_opp.
Qed.

Lemma binary_normalize_opp M e :
  same_or_zeros (binary_normalize 53 1024 (- M) e false)
                (SFopp (binary_normalize 53 1024 M e false)).
Proof.
  destruct M as [|m|m]; simpl.
  - right. eauto.
  - left. apply (binary_round_opp false).
  - left. rewrite (binary_round_opp false).
    by destruct (binary_round 53 1024 false m e) as [[]|[]| |[] ? ?].
Qed.

Lemma same_or_zeros_refl x : same_or_zeros x x.
Proof. by left. Qed.

Lemma same_or_zeros_trans x y z :
  same_or_zeros x y → same_or_zeros y z → same_or_zeros x z.
Proof.
  intros [Hxy|(s1 & s2 & Hx & Hy)] [Hyz|(s3 & s4 & Hy' & Hz)].
  - left. congruence.
  - right. exists s3, s4. split; congruence.
  - right. exists s1, s2. split; congruence.
  - right. by exists s1, s4.
Qed.

Lemma sub_opp_add x y :
  same_or_zeros (Float.sub (SFopp x) y) (SFopp (Float.add x y)).
Proof.
  destruct x as [sx|sx| |sx mx ex], y as [sy|sy| |sy my ey];
    try (left; reflexivity).
  - destruct sx, sy; simpl; (by left) || (right; eauto).
  - destruct sx, sy; by left.
  - unfold Float.sub, Float.add, SFsub, SFadd, SFopp.
    set (A := Zpos (shl_align mx ex (Z.min ex ey)).1).
    set (B := Zpos (shl_align my ey (Z.min ex ey)).1).
    replace (cond_Zopp (negb sx) A - cond_Zopp sy B)
      with (- (cond_Zopp sx A + cond_Zopp sy B))
      by (destruct sx, sy; simpl; lia).
    apply binary_normalize_opp.
Qed.

Lemma sub_same_or_zeros x x' y :
  same_or_zeros x x' → same_or_zeros (Float.sub x y) (Float.sub x' y).
Proof.
  intros [->|(s1 & s2 & -> & ->)]; [by left|].
  destruct y as [sy|sy| |sy my ey]; try (by left).
  destruct s1, s2, sy; simpl; (by left) || (right; eauto).
Qed.

Lemma of_ratio_opp s k d :
  Float.of_ratio (negb s) k d = SFopp (Float.of_ratio s k d).
Proof.
  unfold Float.of_ratio.
  destruct (SFdiv_core_binary _ _ _ _ _ _) as [[q e] l].
  apply binary_round_aux_opp.
Qed.

Lemma round2_opp x : Float.round2 (SFopp x) = SFopp (Float.round2 x).
Proof.
  destruct x as [s|s| |s m e]; try done. simpl.
  destruct (Float.nearest_hundredths m e); try done. apply of_ratio_opp.
Qed.

Lemma round2_same_or_zeros x y :
  same_or_zeros x y → same_or_zeros (Float.round2 x) (Float.round2 y).
Proof.
  intros [->|(s1 & s2 & -> & ->)]; [by left|]. right. simpl. eauto.
Qed.

(** X17: without income the balance is minus the expense total.  If no
    transaction has the type ["income"], [calculate_balance] returns the
    negation of the expense total of [generate_summary] (both are zeros
    when the total is zero), and the income total is 0.0. *)
Theorem balance_without_income (self : Ledger) :
  Forall (λ t, type t ≠ "income"%string) (transactions self) →
  same_or_zeros (calculate_balance self)
                (SFopp (expense (generate_summary self)))
  ∧ income (generate_summary self) = Float.zero.
Proof.
  intros Hno. unfold calculate_balance, generate_summary. simpl.
  assert (∀ b i e,
            same_or_zeros b (SFopp e) →
            same_or_zeros
              (balance_loop b (transactions self))
              (SFopp (expense (summary_loop {| income := i; expense := e |}
                                            (transactions self))))
            ∧ income (summary_loop {| income := i; expense := e |}
                                   (transactions self)) = i) as Hloop.
  { induction Hno as [|t l Ht _ IH]; intros b i e Hbe; simpl; [done|].
    destruct (String.eqb_spec (type t) "income"); [done|].
    destruct (String.eqb (type t) "expense"); [|by apply IH].
    apply IH. eapply same_or_zeros_trans.
    - apply sub_same_or_zeros, Hbe.
    - apply sub_opp_add. }
  destruct (Hloop Float.zero Float.zero Float.zero) as [Hb ->].
  { right. simpl. eauto. }
  split; [|done]. rewrite <- round2_opp. by apply round2_same_or_zeros.
Qed.

Lemma balance_without_income_witness :
  let tx i ty k := {| id := i; date := "d"; type := ty; category := "c";
                      amount := Float.cents k; description := "none" |} in
  let self := {| data_file := "ledger_data.json";
                 transactions := [tx 1 "expense" 10; tx 2 "expense" 20;
                                  tx 3 "transfer" 999];
                 _next_id := 4 |} in
  same_or_zeros (calculate_balance self)
                (SFopp (expense (generate_summary self)))
  ∧ income (generate_summary self) = Float.zero.
Proof.
  intros tx self. apply (balance_without_income self).
  repeat constructor; simpl; discriminate.
Defined.

(** ** Viewing *)

(** X18: the views by type show what the balance counts.  For a
    lower-casing that leaves ["income"] and ["expense"] as they are, the
    filter [choice] (in any case that lower-cases to one of the two) makes
    [handle_view] display the transactions whose stored type is exactly
    that word, in ledger order; and the two views together hold exactly
    the transactions that [calculate_balance] and [generate_summary]
    count. *)
Theorem type_views_show_counted (lower : string → string)
    (choice answer : string) (ledger : Ledger) (w : World) :
  let view ty := filter (λ t, type t = ty) (transactions ledger) in
  (lower choice = "income"%string ∨ lower choice = "expense"%string →
   handle_view lower choice answer ledger w
   = display_transactions (view (lower choice)) (TypeTransactions choice) w)
  ∧ (∀ t, t ∈ view "income"%string ++ view "expense"%string
          ↔ t ∈ transactions ledger ∧ counted t).
Proof.
  intros view. split.
  - intros Hc. unfold handle_view.
    destruct Hc as [Hc|Hc]; rewrite Hc; reflexivity.
  - intros t. unfold view, counted.
    rewrite elem_of_app, !list_elem_of_filter. tauto.
Qed.

Lemma type_views_show_counted_witness :
  let tx i ty := {| id := i; date := "d"; type := ty; category := "c";
                    amount := Float.cents 100; description := "none" |} in
  let ledger := {| data_file := "ledger_data.json";
                   transactions := [tx 1 "income"; tx 2 "expense";
                                    tx 3 "Income"; tx 4 "income"];
                   _next_id := 5 |} in
  handle_view lower_ascii "INCOME" "unused" ledger empty_world
  = say (TransactionTable (TypeTransactions "INCOME")
           [tx 1 "income"; tx 4 "income"]) empty_world.
Proof.
  intros tx ledger.
  rewrite (proj1 (type_views_show_counted lower_ascii "INCOME" "unused"
                    ledger empty_world)).
  - reflexivity.
  - left. reflexivity.
Defined.

(** ** The counter *)

(** X19: the counter counts the adds.  Along any commands other than
    import, [_next_id] grows by one at each add and at nothing else: after
    the run it is the initial counter plus the number of adds, however many
    deletions and exports came between, and whether they succeeded or
    not. *)
Theorem counter_counts_adds (cs : list command) (st : Ledger * World) :
  Forall no_import cs →
  ∃ st', run cs st = Some st'
         ∧ _next_id st'.1 = _next_id st.1 + adds_in cs.
Proof.
  intros Hcs. revert st.
  induction Hcs as [|c cs Hc _ IH]; intros st.
  - exists st. simpl. split; [done|lia].
  - destruct st as [self w].
    destruct c as [now ty cat a d|tx_id|f|f]; try done; simpl.
    + destruct (IH (add_transaction now ty cat a d self w))
        as (st' & -> & Hn).
      exists st'. split; [done|]. rewrite Hn. simpl. lia.
    + destruct (IH (handle_delete tx_id self w)) as (st' & -> & Hn).
      exists st'. split; [done|]. by rewrite Hn, delete_result.
    + destruct (IH (self, export_data f self w)) as (st' & -> & Hn).
      exists st'. split; [done|]. by rewrite Hn.
Qed.

Lemma counter_counts_adds_witness :
  let cs := [ Add "2024-03-01 09:00:00" "income" "Salary"
                  (Float.cents 100000) "March pay";
              Delete 1; Delete 7; Export "backup.json";
              Add "2024-03-02 18:30:00" "expense" "Groceries"
                  (Float.cents 4550) "Weekly shop" ] in
  ∃ st', run cs fresh_state = Some st'
         ∧ _next_id st'.1 = _next_id fresh_state.1 + adds_in cs.
Proof.
  intros cs. apply (counter_counts_adds cs fresh_state).
  repeat constructor.
Defined.

(** ** Dictionaries that are not transactions *)

Lemma next_id_transactions (l : list Transaction) :
  next_id (map transaction_to_json l) = Returns (py_max 0 (map id l) + 1).
Proof.
  unfold next_id.
  assert (mapM (getitem "id") (map transaction_to_json l)
          = Some (map (λ t, JInt (id t)) l)) as ->.
  { apply mapM_Some. induction l; constructor; done. }
  assert (mapM as_int (map (λ t, JInt (id t)) l) = Some (map id l)) as ->.
  { apply mapM_Some. induction l; constructor; done. }
  done.
Qed.

Lemma without_id_transactions (tx_id : Z) (l : list Transaction) :
  without_id tx_id (map transaction_to_json l)
  = Some (map transaction_to_json (filter (λ t, id t ≠ tx_id) l)).
Proof.
  induction l as [|t l IH]; [done|].
  cbn [map without_id]. rewrite IH.
  change (getitem "id" (transaction_to_json t)) with (Some (JInt (id t))).
  cbn [mbind option_bind py_eq_int].
  destruct (decide (id t ≠ tx_id)) as [Hne|Heq].
  - rewrite filter_cons_True by done.
    by replace (id t =? tx_id) with false by (symmetry; by apply Z.eqb_neq).
  - rewrite filter_cons_False by done.
    by replace (id t =? tx_id) with true by (symmetry; apply Z.eqb_eq; lia).
Qed.

Lemma save_of_ledger (self : Ledger) (w : World) :
  Untyped._save_transactions (of_ledger self) w = _save_transactions self w.
Proof. reflexivity. Qed.

(** On ledgers of transactions the two models agree: what a command does to
    the records, it does to the dictionaries they stand for. *)
Lemma exec_of_state (c : command) (st st' : Ledger * World) :
  exec c st = Some st' → Untyped.exec c (of_state st) = Some (of_state st').
Proof.
  destruct st as [self w].
  destruct c as [now ty cat a d|tx_id|f|f]; simpl.
  - intros [= <-].
    unfold of_state, of_ledger, Untyped.add_transaction, add_transaction,
      Untyped._save_transactions, _save_transactions, transactions_to_json.
    simpl. by rewrite map_app.
  - intros [= <-].
    unfold Untyped.delete_transaction, handle_delete, delete_transaction,
      of_state, of_ledger.
    simpl. rewrite without_id_transactions. simpl. rewrite !length_map.
    by destruct (_ <? _)%nat.
  - by intros [= <-].
  - unfold import_data, Untyped.import_data. simpl.
    destruct (files w !! f) as [[v|err|err]|]; try by intros [= <-].
    destruct (is_list_of_dicts v) eqn:Hv.
    + destruct (transactions_of_json v) as [l|] eqn:Hl; [|done].
      apply transactions_of_json_inv in Hl as ->. simpl in *.
      intros [= <-]. rewrite Hv. simpl. by rewrite next_id_transactions.
    + intros [= <-]. destruct v as [| | | | |items|]; try done.
      simpl in Hv. by rewrite Hv.
Qed.

Lemma run_of_state (cs : list command) (st st' : Ledger * World) :
  run cs st = Some st' → Untyped.run cs (of_state st) = Some (of_state st').
Proof.
  revert st. induction cs as [|c cs IH]; intros st; simpl.
  - by intros [= <-].
  - destruct (exec c st) as [st1|] eqn:Hc; simpl; [|done].
    rewrite (exec_of_state _ _ _ Hc). simpl. apply IH.
Qed.

Lemma init_of_state (f : string) (w : World) (st : Ledger * World) :
  __init__ f w = Some st → Untyped.__init__ f w = Returns (of_state st).
Proof.
  unfold __init__, Untyped.__init__, _load_transactions,
    Untyped._load_transactions. simpl.
  destruct (files w !! f) as [[v|err|err]|]; try by intros [= <-].
  destruct (transactions_of_json v) as [l|] eqn:Hl; [|done].
  apply transactions_of_json_inv in Hl as ->. simpl. intros [= <-].
  by rewrite next_id_transactions.
Qed.

Lemma next_id_raises (items : list json) :
  (∃ t, t ∈ items ∧ getitem "id" t = None) → next_id items = Raises ().
Proof.
  intros (t & Hin & Ht). unfold next_id.
  destruct (mapM (getitem "id") items) as [ids|] eqn:Hids; [|done].
  assert (is_Some (mapM (getitem "id") items)) as Hsome by eauto.
  apply mapM_is_Some in Hsome. rewrite Forall_forall in Hsome.
  apply Hsome in Hin. simpl in Hin. rewrite Ht in Hin. by destruct Hin.
Qed.

Lemma import_data_raises (filename : string) (self : Untyped.t)
    (w : World) (items : list json) :
  files w !! filename = Some (Document (JArr items)) →
  forallb is_dict items = true →
  (∃ t, t ∈ items ∧ getitem "id" t = None) →
  Untyped.import_data filename self w
  = Raises (Untyped.with_transactions self items, w).
Proof.
  intros Hf Hdicts Hno. unfold Untyped.import_data. rewrite Hf, Hdicts.
  simpl. by rewrite (next_id_raises _ Hno).
Qed.

(** X20: an import can stop half-way.  When the file holds a list of
    dictionaries one of which has no ["id"], the list passes the check of
    [import_data] and replaces the transactions in memory (line 163); then
    line 164 raises, and no [except] of [import_data] catches it.  The
    counter is the old one, no file is written and [import_data] prints
    nothing; the command loop reports the error and goes on with the
    ledger in that state. *)
Theorem import_data_half_applied (filename : string) (self : Untyped.t)
    (w : World) (items : list json) :
  files w !! filename = Some (Document (JArr items)) →
  forallb is_dict items = true →
  (∃ t, t ∈ items ∧ getitem "id" t = None) →
  Untyped.import_data filename self w
  = Raises ({| Untyped.data_file := Untyped.data_file self;
               Untyped.transactions := items;
               Untyped._next_id := Untyped._next_id self |}, w)
  ∧ Untyped.exec (Import filename) (self, w)
    = Some ({| Untyped.data_file := Untyped.data_file self;
               Untyped.transactions := items;
               Untyped._next_id := Untyped._next_id self |},
            say UnexpectedError w).
Proof.
  intros Hf Hdicts Hno. split.
  - by apply import_data_raises.
  - simpl. by rewrite (import_data_raises _ _ _ _ Hf Hdicts Hno).
Qed.

Lemma import_data_half_applied_witness :
  let stored :=
    transaction_to_json
      {| id := 5; date := "2024-02-27 10:00:00"; type := "income";
         category := "Salary"; amount := Float.cents 100000;
         description := "February pay" |} in
  let note := JObj [ ("description"%string, JStr "a note") ] in
  let self := {| Untyped.data_file := "ledger_data.json";
                 Untyped.transactions := [stored];
                 Untyped._next_id := 6 |} in
  let w := {| files := {[ "statement.json"%string :=
                            Document (JArr [note; stored; stored]) ]};
              unwritable := ∅; console := [] |} in
  Untyped.exec (Import "statement.json") (self, w)
  = Some ({| Untyped.data_file := "ledger_data.json";
             Untyped.transactions := [note; stored; stored];
             Untyped._next_id := 6 |},
          say UnexpectedError w).
Proof.
  intros stored note self w.
  apply (import_data_half_applied "statement.json" self w
           [note; stored; stored]).
  - reflexivity.
  - reflexivity.
  - exists note. split; [by left|reflexivity].
Defined.

(** X21: after an import that stopped half-way, the next save leaves a
    data file from which no ledger can be constructed.  The add that
    follows writes the list in memory, the dictionary without an id
    included; a process started afterwards loads the file, says so, and
    raises at line 48, outside any [try]. *)
Theorem restart_after_half_applied_import (filename : string)
    (self : Untyped.t) (w : World) (items : list json)
    (now tx_type cat : string) (a : float) (d : string) :
  files w !! filename = Some (Document (JArr items)) →
  forallb is_dict items = true →
  (∃ t, t ∈ items ∧ getitem "id" t = None) →
  Untyped.data_file self ∉ unwritable w →
  ∃ st,
    Untyped.run [Import filename; Add now tx_type cat a d] (self, w)
    = Some st
    ∧ Untyped.__init__ (Untyped.data_file self) st.2
      = Raises (say (DataLoaded (Untyped.data_file self)) st.2).
Proof.
  intros Hf Hdicts Hno Hw. cbn [Untyped.run Untyped.exec fst snd].
  rewrite (import_data_raises _ _ _ _ Hf Hdicts Hno).
  simpl. eexists. split; [done|]. simpl.
  unfold Untyped._save_transactions, write_file. simpl.
  rewrite decide_False by done. simpl.
  unfold Untyped.__init__, Untyped._load_transactions. simpl.
  rewrite lookup_insert_eq. rewrite next_id_raises; [done|].
  destruct Hno as (t & Hin & Ht). exists t. split; [|done].
  apply elem_of_app. by left.
Qed.

Lemma restart_after_half_applied_import_witness :
  let stored :=
    transaction_to_json
      {| id := 5; date := "2024-02-27 10:00:00"; type := "income";
         category := "Salary"; amount := Float.cents 100000;
         description := "February pay" |} in
  let note := JObj [ ("description"%string, JStr "a note") ] in
  let self := {| Untyped.data_file := "ledger_data.json";
                 Untyped.transactions := [];
                 Untyped._next_id := 1 |} in
  let w := {| files := {[ "statement.json"%string :=
                            Document (JArr [stored; note]) ]};
              unwritable := ∅; console := [] |} in
  ∃ st,
    Untyped.run [ Import "statement.json";
                  Add "2024-03-01 09:00:00" "expense" "Groceries"
                      (Float.cents 4550) "Weekly shop" ] (self, w)
    = Some st
    ∧ Untyped.__init__ "ledger_data.json" st.2
      = Raises (say (DataLoaded "ledger_data.json") st.2).
Proof.
  intros stored note self w.
  apply (restart_after_half_applied_import "statement.json" self w
           [stored; note] "2024-03-01 09:00:00" "expense" "Groceries"
           (Float.cents 4550) "Weekly shop").
  - reflexivity.
  - reflexivity.
  - exists note. split; [right; by left|reflexivity].
  - apply not_elem_of_empty.
Defined.

Lemma without_id_raises (tx_id : Z) (l : list json) :
  (∃ t, t ∈ l ∧ getitem "id" t = None) → without_id tx_id l = None.
Proof.
  intros (t & Hin & Ht).
  induction l as [|x l IH]; [by apply elem_of_nil in Hin|].
  apply elem_of_cons in Hin as [<-|Hin]; simpl.
  - by rewrite Ht.
  - rewrite (IH Hin). by destruct (getitem "id" x).
Qed.

(** X22: while the ledger holds a dictionary without an id, nothing can be
    deleted.  The comprehension of [delete_transaction] reads the id of
    every element and raises on that one before anything is assigned: the
    ledger and the files are as they were, whatever the id asked for, and
    the command loop reports the error. *)
Theorem delete_with_missing_id (tx_id : Z) (self : Untyped.t) (w : World) :
  (∃ t, t ∈ Untyped.transactions self ∧ getitem "id" t = None) →
  Untyped.delete_transaction tx_id self w = Raises (self, w)
  ∧ Untyped.exec (Delete tx_id) (self, w)
    = Some (self, say UnexpectedError w).
Proof.
  intros Hno.
  assert (Untyped.delete_transaction tx_id self w = Raises (self, w)) as H.
  { unfold Untyped.delete_transaction. by rewrite (without_id_raises _ _ Hno). }
  split; [done|]. simpl. by rewrite H.
Qed.

Lemma delete_with_missing_id_witness :
  let stored :=
    transaction_to_json
      {| id := 5; date := "2024-02-27 10:00:00"; type := "income";
         category := "Salary"; amount := Float.cents 100000;
         description := "February pay" |} in
  let note := JObj [ ("description"%string, JStr "a note") ] in
  let self := {| Untyped.data_file := "ledger_data.json";
                 Untyped.transactions := [stored; note];
                 Untyped._next_id := 1 |} in
  Untyped.delete_transaction 5 self empty_world = Raises (self, empty_world)
  ∧ Untyped.exec (Delete 5) (self, empty_world)
    = Some (self, say UnexpectedError empty_world).
Proof.
  intros stored note self.
  apply (delete_with_missing_id 5 self empty_world).
  exists note. split; [right; by left|reflexivity].
Defined.

(** The comparisons and the counter on some values, as CPython gives
    them. *)
Example python_values :
  let with_id v := JObj [ ("id"%string, v) ] in
  py_eq_int (JBool true) 1 = true
  ∧ py_eq_int (JFloat (Float.cents 100)) 1 = true
  ∧ py_eq_int (JFloat (Float.cents 150)) 1 = false
  ∧ py_eq_int (JFloat S754_nan) 1 = false
  ∧ py_eq_int (JStr "1") 1 = false
  ∧ py_eq_int JNull 1 = false
  ∧ next_id [] = Returns 1
  ∧ next_id [with_id (JInt 3); with_id (JInt 7); with_id (JInt (-2))]
    = Returns 8
  ∧ next_id [with_id (JInt 1); JObj []] = Raises ()
  ∧ next_id [with_id (JStr "x"); JObj []] = Raises ()
  ∧ next_id [with_id (JBool true)] = Unmodelled
  ∧ without_id 1 [with_id (JInt 1); with_id (JBool true); with_id (JStr "1")]
    = Some [with_id (JStr "1")].
Proof. intros with_id. split_and!; reflexivity. Qed.
